(** * Receipt text parser of the finance tracker: a shallow embedding

    This development embeds [parse_receipt_text] of [finance_tracker.py]
    and the Python primitives it calls, and states the properties of the
    parser over that embedding.

    Conventions of the embedding.

    - A Python [str] is a list of characters, [list ascii]; a character is a
      code point below 256 (the Latin-1 part of Unicode).  The character
      classes used by [str.strip], [str.lower], [\d], [\b] and [float] are
      the ones CPython has on these code points.
    - A Python [float] is a [spec_float] of the binary64 format (precision
      53, maximal exponent 1024).  [float(s)] is the correctly rounded value
      of the decimal numeral, [round(x, 2)] the correctly rounded value of
      the half-even rounding of [x] to two decimals, as CPython computes
      them.
    - [ValueError] is [None]: a function that can raise returns an option. *)

From Stdlib Require Import Ascii String Bool Arith ZArith Lia List.
From Stdlib Require Import Floats.SpecFloat DecimalString.
Import ListNotations.

Local Open Scope list_scope.

(** ** Strings *)

Definition str := list ascii.

Definition LF : ascii := ascii_of_nat 10.

(** [lit] reads a string literal the way Python reads it: the two
    characters backslash, n stand for a line feed. *)
Fixpoint unescape (s : str) : str :=
  match s with
  | c :: ((d :: s') as t) =>
      if (Ascii.eqb c "\" && Ascii.eqb d "n")%bool then LF :: unescape s'
      else c :: unescape t
  | _ => s
  end.

Definition lit (s : string) : str := unescape (list_ascii_of_string s).

Definition code (c : ascii) : nat := nat_of_ascii c.

Definition between (lo hi : nat) (c : ascii) : bool :=
  ((lo <=? code c) && (code c <=? hi))%bool.

(** [str.isspace] on one character. *)
Definition is_space (c : ascii) : bool :=
  (between 9 13 c || between 28 32 c
   || (code c =? 133) || (code c =? 160))%bool.

(** [\d] on one character. *)
Definition is_digit (c : ascii) : bool := between 48 57 c.

(** [\w] on one character: [str.isalnum] or the underscore. *)
Definition is_word (c : ascii) : bool :=
  (is_digit c || between 65 90 c || between 97 122 c || (code c =? 95)
   || (code c =? 170) || (code c =? 178) || (code c =? 179)
   || (code c =? 181) || (code c =? 185) || (code c =? 186)
   || between 188 190 c || between 192 214 c || between 216 246 c
   || between 248 255 c)%bool.

(** [str.lower] on one character. *)
Definition lower_char (c : ascii) : ascii :=
  if (between 65 90 c || between 192 214 c || between 216 222 c)%bool
  then ascii_of_nat (code c + 32) else c.

Definition lower (s : str) : str := map lower_char s.

Fixpoint lstrip (s : str) : str :=
  match s with
  | c :: s' => if is_space c then lstrip s' else s
  | [] => []
  end.

Definition rstrip (s : str) : str := rev (lstrip (rev s)).

(** [s.strip()] *)
Definition strip (s : str) : str := rstrip (lstrip s).

(** [s.split(sep)] for a separator of one character; [cur] holds the
    characters of the piece being read, last one first. *)
Fixpoint split_acc (sep : ascii) (cur : str) (s : str) : list str :=
  match s with
  | [] => [rev cur]
  | c :: s' =>
      if Ascii.eqb c sep then rev cur :: split_acc sep [] s'
      else split_acc sep (c :: cur) s'
  end.

Definition split (sep : ascii) (s : str) : list str := split_acc sep [] s.

(** [sep.join(l)] for a separator of one character. *)
Fixpoint join (sep : ascii) (l : list str) : str :=
  match l with
  | [] => []
  | [x] => x
  | x :: l' => x ++ sep :: join sep l'
  end.

(** [s.replace(c, "")] for a pattern of one character. *)
Definition remove_char (c : ascii) (s : str) : str :=
  filter (fun d => negb (Ascii.eqb d c)) s.

(** [s.startswith(p)] *)
Fixpoint startswith (s p : str) : bool :=
  match p, s with
  | [], _ => true
  | _ :: _, [] => false
  | a :: p', b :: s' => (Ascii.eqb a b && startswith s' p')%bool
  end.

(** [p in s] *)
Fixpoint contains (s p : str) : bool :=
  (startswith s p ||
   match s with
   | [] => false
   | _ :: s' => contains s' p
   end)%bool.

Definition is_empty {A : Type} (l : list A) : bool :=
  match l with [] => true | _ => false end.

(** [l[-1]] of a non-empty list; the default is never used by the parser,
    which indexes only after testing that the list is not empty. *)
Definition last_match (l : list str) : str := last l [].

(** ** Regular expressions

    The four patterns of the parser use character classes, greedy
    repetition of a class, one optional class and the word boundary.  A run
    of the matcher lists the states the backtracking matcher of [re] can
    end in, in the order it tries them; the first one is the match. *)

Inductive regex : Type :=
| Cls (p : ascii -> bool)
| Bnd
| Seq (r1 r2 : regex)
| Opt (r : regex)
| Star (p : ascii -> bool)
| Plus (p : ascii -> bool).

(** The character before the cursor, and the text from the cursor on. *)
Definition mstate : Type := option ascii * str.

Definition word_opt (c : option ascii) : bool :=
  match c with Some c => is_word c | None => false end.

Definition at_boundary (prev : option ascii) (s : str) : bool :=
  xorb (word_opt prev) (word_opt (hd_error s)).

Fixpoint star (p : ascii -> bool) (prev : option ascii) (s : str)
  : list mstate :=
  match s with
  | c :: s' =>
      if p c then star p (Some c) s' ++ [(prev, s)] else [(prev, s)]
  | [] => [(prev, s)]
  end.

Fixpoint run (r : regex) (st : mstate) : list mstate :=
  match r with
  | Cls p =>
      match snd st with
      | c :: s' => if p c then [(Some c, s')] else []
      | [] => []
      end
  | Bnd => if at_boundary (fst st) (snd st) then [st] else []
  | Seq r1 r2 => flat_map (run r2) (run r1 st)
  | Opt r1 => run r1 st ++ [st]
  | Star p => star p (fst st) (snd st)
  | Plus p =>
      match snd st with
      | c :: s' => if p c then star p (Some c) s' else []
      | [] => []
      end
  end.

(** Length of the match that starts at the cursor, if there is one. *)
Definition match_at (r : regex) (prev : option ascii) (s : str)
  : option nat :=
  match run r (prev, s) with
  | (_, rest) :: _ => Some (length s - length rest)
  | [] => None
  end.

(** [re.findall(r, s)], for a pattern whose only group is the whole match.
    [skip] counts the characters of the last match still to pass. *)
Fixpoint findall_from (r : regex) (prev : option ascii) (s : str)
  (skip : nat) : list str :=
  match s with
  | [] => []
  | c :: s' =>
      match skip with
      | S n => findall_from r (Some c) s' n
      | O =>
          match match_at r prev s with
          | Some n => firstn n s :: findall_from r (Some c) s' (n - 1)
          | None => findall_from r (Some c) s' 0
          end
      end
  end.

Definition findall (r : regex) (s : str) : list str :=
  findall_from r None s 0.

(** [re.sub(r, "", s)] *)
Fixpoint sub_from (r : regex) (prev : option ascii) (s : str)
  (skip : nat) : str :=
  match s with
  | [] => []
  | c :: s' =>
      match skip with
      | S n => sub_from r (Some c) s' n
      | O =>
          match match_at r prev s with
          | Some (S n) => sub_from r (Some c) s' n
          | _ => c :: sub_from r (Some c) s' 0
          end
      end
  end.

Definition sub_empty (r : regex) (s : str) : str := sub_from r None s 0.

Definition chr (c : ascii) : ascii -> bool := fun d => Ascii.eqb d c.

Definition dot_or_comma (c : ascii) : bool :=
  (Ascii.eqb c "." || Ascii.eqb c ",")%bool.

(** [(\d+\.\d{2})] *)
Definition pat_dot2 : regex :=
  Seq (Plus is_digit) (Seq (Cls (chr ".")) (Seq (Cls is_digit) (Cls is_digit))).

(** [(\d+,\d{2})] *)
Definition pat_comma2 : regex :=
  Seq (Plus is_digit) (Seq (Cls (chr ",")) (Seq (Cls is_digit) (Cls is_digit))).

(** [\b(\d+)\b] *)
Definition pat_int : regex := Seq Bnd (Seq (Plus is_digit) Bnd).

(** [\d+[\.,]?\d*] *)
Definition pat_number : regex :=
  Seq (Plus is_digit) (Seq (Opt (Cls dot_or_comma)) (Star is_digit)).

Definition price_patterns : list regex := [pat_dot2; pat_comma2; pat_int].

(** ** Floats *)

Definition prec : Z := 53.
Definition emax : Z := 1024.

(** The binary64 number nearest to [n / d] (ties to even), with the sign
    [neg]; an infinity when [n / d] is beyond the range. *)
Definition float_of_ratio (neg : bool) (n d : positive) : spec_float :=
  SFdiv prec emax (S754_finite neg n 0) (S754_finite false d 0).

(** The binary64 number nearest to [m * 10 ^ e], for [0 <= m]. *)
Definition decimal_to_float (neg : bool) (m e : Z) : spec_float :=
  match m with
  | Zpos p =>
      float_of_ratio neg (p * Z.to_pos (10 ^ Z.max e 0))
                     (Z.to_pos (10 ^ Z.max (- e) 0))
  | _ => S754_zero neg
  end.

(** The float written [m * 10 ^ e] in decimal, as a Python literal reads. *)
Definition dec (m e : Z) : spec_float :=
  decimal_to_float (m <? 0)%Z (Z.abs m) e.

(** [n / d] rounded to an integer, ties to even, for [0 <= n] and
    [0 < d]. *)
Definition round_half_even (n d : Z) : Z :=
  let q := (n / d)%Z in
  match (2 * (n mod d) ?= d)%Z with
  | Lt => q
  | Gt => (q + 1)%Z
  | Eq => if Z.even q then q else (q + 1)%Z
  end.

(** [|x| * 100] rounded to an integer, for the finite [x = m * 2 ^ e]. *)
Definition hundredths (m : positive) (e : Z) : Z :=
  if (0 <=? e)%Z then (Zpos m * 2 ^ e * 100)%Z
  else round_half_even (Zpos m * 100) (2 ^ (- e)).

(** [round(x, 2)]: the decimal with two fraction digits nearest to [x],
    read back as a float; infinities and nan round to themselves. *)
Definition py_round2 (x : spec_float) : spec_float :=
  match x with
  | S754_finite s m e =>
      match hundredths m e with
      | Zpos k => float_of_ratio s k 100
      | _ => S754_zero s
      end
  | _ => x
  end.

(** [x >= 0.0] *)
Definition float_nonneg (x : spec_float) : bool :=
  SFleb (S754_zero false) x.

(** [x == y] *)
Definition float_eq (x y : spec_float) : bool := SFeqb x y.

(** *** [float(s)] *)

(** White space [float] strips: the C white space, and the non-ASCII
    spaces, which it first turns into blanks. *)
Definition float_space (c : ascii) : bool :=
  (between 9 13 c || (code c =? 32) || (code c =? 133) || (code c =? 160))%bool.

Fixpoint lstrip_by (p : ascii -> bool) (s : str) : str :=
  match s with
  | c :: s' => if p c then lstrip_by p s' else s
  | [] => []
  end.

Definition rstrip_by (p : ascii -> bool) (s : str) : str :=
  rev (lstrip_by p (rev s)).

(** Underscores are allowed between two digits only, and are dropped;
    [prev] is the character just read. *)
Fixpoint drop_underscores (prev : ascii) (s : str) : option str :=
  match s with
  | [] => if Ascii.eqb prev "_" then None else Some []
  | c :: s' =>
      if Ascii.eqb c "_" then
        if is_digit prev then drop_underscores c s' else None
      else if (Ascii.eqb prev "_" && negb (is_digit c))%bool then None
      else option_map (cons c) (drop_underscores c s')
  end.

Fixpoint span (p : ascii -> bool) (s : str) : str * str :=
  match s with
  | c :: s' =>
      if p c then let (a, b) := span p s' in (c :: a, b) else ([], s)
  | [] => ([], [])
  end.

Definition take_sign (s : str) : bool * str :=
  match s with
  | c :: s' =>
      if Ascii.eqb c "-" then (true, s')
      else if Ascii.eqb c "+" then (false, s')
      else (false, s)
  | [] => (false, s)
  end.

Definition digit_val (c : ascii) : Z := Z.of_nat (code c - 48).

Definition digits_val (ds : str) : Z :=
  fold_left (fun acc c => (acc * 10 + digit_val c)%Z) ds 0%Z.

(** ASCII lower case, as [Py_TOLOWER]. *)
Definition c_lower (c : ascii) : ascii :=
  if between 65 90 c then ascii_of_nat (code c + 32) else c.

Definition ci_startswith (s : str) (p : string) : bool :=
  startswith (map c_lower s) (list_ascii_of_string p).

(** The spellings of infinity and of nan; the whole text must be used. *)
Definition inf_or_nan (s : str) : option spec_float :=
  let (neg, s1) := take_sign s in
  if ci_startswith s1 "inf" then
    let s2 := skipn 3 s1 in
    let s3 := if ci_startswith s2 "inity" then skipn 5 s2 else s2 in
    if is_empty s3 then Some (S754_infinity neg) else None
  else if ci_startswith s1 "nan" then
    if is_empty (skipn 3 s1) then Some S754_nan else None
  else None.

(** The exponent part after the mantissa: nothing, or [e], a sign and
    digits up to the end of the text. *)
Definition exponent_part (s : str) : option Z :=
  match s with
  | [] => Some 0%Z
  | c :: s1 =>
      if (Ascii.eqb c "e" || Ascii.eqb c "E")%bool then
        let (neg, s2) := take_sign s1 in
        let (ds, s3) := span is_digit s2 in
        if (is_empty ds || negb (is_empty s3))%bool then None
        else Some (if neg then (- digits_val ds)%Z else digits_val ds)
      else None
  end.

(** A decimal numeral that fills the whole text: sign, digits with an
    optional point, optional exponent; at least one digit in the
    mantissa.  A text with no mantissa digit may still spell infinity or
    nan. *)
Definition strtod (s : str) : option spec_float :=
  let (neg, s1) := take_sign s in
  let (ip, s2) := span is_digit s1 in
  let (fp, s3) :=
    match s2 with
    | c :: s2' => if Ascii.eqb c "." then span is_digit s2' else ([], s2)
    | [] => ([], s2)
    end in
  if (is_empty ip && is_empty fp)%bool then inf_or_nan s
  else
    match exponent_part s3 with
    | Some e =>
        Some (decimal_to_float neg (digits_val (ip ++ fp))
                (e - Z.of_nat (length fp)))
    | None => None
    end.

(** [float(s)]; [None] is [ValueError]. *)
Definition float_of_str (s : str) : option spec_float :=
  match drop_underscores "000" s with
  | None => None
  | Some s1 =>
      let s2 := lstrip_by float_space s1 in
      if is_empty s2 then None else strtod (rstrip_by float_space s2)
  end.

(** ** The parser *)

Record item : Type := Item { description : str; amount : spec_float }.

Record parse_result : Type := Result { items : list item; total : spec_float }.

(** [lines = [x.strip() for x in text.strip().split('\n') if x.strip()]] *)
Definition normalize (text : str) : list str :=
  map strip
    (filter (fun x => negb (is_empty (strip x))) (split LF (strip text))).

(** [price_line.replace("$", "").replace("S", "").replace(",", "")] *)
Definition clean_price (price_line : str) : str :=
  remove_char "," (remove_char "S" (remove_char "$" price_line)).

Definition keywords : list str :=
  [lit "total"; lit "amount"; lit "change"; lit "cash"].

(** [any(desc.lower().startswith(x) for x in keywords)] *)
Definition reserved (desc : str) : bool :=
  existsb (startswith (lower desc)) keywords.

(** The loop over pairs of lines.  The cursor [i] is kept as the lines
    from [i] on: the loop runs while two lines are left, and moves on by
    one line or by two. *)
Fixpoint paired_loop (rest : list str) (acc : list item) : list item :=
  match rest with
  | desc :: ((price_line :: rest2) as rest1) =>
      match float_of_str (clean_price price_line) with
      | Some price =>
          if reserved desc then paired_loop rest1 acc
          else paired_loop rest2 (acc ++ [Item desc (py_round2 price)])
      | None => paired_loop rest1 acc
      end
  | _ => acc
  end.

Definition paired_items (lines : list str) : list item :=
  paired_loop lines [].

(** The patterns tried on one line, in order, until one has a match whose
    last occurrence converts. *)
Fixpoint fallback_line (patterns : list regex) (line : str)
  (acc : list item) : list item :=
  match patterns with
  | [] => acc
  | pattern :: patterns' =>
      let matches := findall pattern line in
      if is_empty matches then fallback_line patterns' line acc
      else
        let price_str := last_match matches in
        match float_of_str (remove_char "," price_str) with
        | Some price =>
            let desc := strip (sub_empty pattern line) in
            if (negb (is_empty desc) && (1 <? length desc))%bool
            then acc ++ [Item (firstn 50 desc) (py_round2 price)]
            else acc
        | None => fallback_line patterns' line acc
        end
  end.

Definition fallback_items (lines : list str) : list item :=
  fold_left (fun acc line => fallback_line price_patterns line acc) lines [].

(** The scan for the total; [None] is a [ValueError] that nothing
    catches. *)
Fixpoint total_scan (lines : list str) : option spec_float :=
  match lines with
  | [] => Some (S754_zero false)
  | line :: lines' =>
      if contains (lower line) (lit "total") then
        let parts := findall pat_number line in
        if is_empty parts then total_scan lines'
        else float_of_str (remove_char "S" (remove_char "," (last_match parts)))
      else total_scan lines'
  end.

(** [parse_receipt_text(text)]; [None] when it raises. *)
Definition parse_receipt_text (text : str) : option parse_result :=
  let lines := normalize text in
  let items := paired_items lines in
  let items := if is_empty items then fallback_items lines else items in
  match total_scan lines with
  | Some total => Some (Result items (py_round2 total))
  | None => None
  end.

(** ** The collaborators of the parser

    The other functions of the file work on objects of libraries: an
    image, the reader of the recognizer, the clock.  A call of a library
    that can raise has an [outcome]; what the library returns is a
    parameter of the function that calls it. *)

Inductive outcome (A : Type) : Type :=
| Raises (e : str)
| Returns (a : A).

Arguments Raises {A} e.
Arguments Returns {A} a.

Definition bind {A B : Type} (o : outcome A) (f : A -> outcome B)
  : outcome B :=
  match o with
  | Raises e => Raises e
  | Returns a => f a
  end.

(** [n / d] on two integers: the float nearest to the quotient. *)
Definition int_true_div (n d : Z) : outcome spec_float :=
  match d, n with
  | Z0, _ => Raises (lit "division by zero")
  | _, Z0 => Returns (S754_zero (d <? 0)%Z)
  | _, _ =>
      match float_of_ratio (xorb (n <? 0)%Z (d <? 0)%Z)
                           (Z.to_pos (Z.abs n)) (Z.to_pos (Z.abs d)) with
      | S754_infinity _ =>
          Raises (lit "integer division result too large for a float")
      | q => Returns q
      end
  end.

(** [int(x)] on a float: the integer part, towards zero. *)
Definition int_of_float (x : spec_float) : outcome Z :=
  match x with
  | S754_zero _ => Returns 0%Z
  | S754_finite s m e =>
      let a := if (0 <=? e)%Z then (Zpos m * 2 ^ e)%Z
               else (Zpos m / 2 ^ (- e))%Z in
      Returns (if s then (- a)%Z else a)
  | S754_infinity _ => Raises (lit "cannot convert float infinity to integer")
  | S754_nan => Raises (lit "cannot convert float NaN to integer")
  end.

Definition MAX_WIDTH : Z := 1000.

(** What the imaging library gives: the size of an image, as width and
    height, and the image resized to a size. *)
Record imaging (image : Type) : Type := Imaging {
  size : image -> Z * Z;
  resize : image -> Z * Z -> outcome image
}.

Arguments size {image} _ _.
Arguments resize {image} _ _ _.

(** [resize_for_ocr(image)] *)
Definition resize_for_ocr {image : Type} (lib : imaging image)
  (img : image) : outcome image :=
  let (w, h) := size lib img in
  if (w >? MAX_WIDTH)%Z then
    bind (int_true_div (h * MAX_WIDTH) w) (fun q =>
    bind (int_of_float q) (fun h' =>
    resize lib img (MAX_WIDTH, h')))
  else Returns img.

(** [perform_ocr_easyocr(image)].  [readtext] stands for the cached
    reader applied to the pixels of the image: it raises, or returns the
    recognized texts, the [r[1]] of the source, in reading order.  The
    result is the pair of the text and of the error message, one of which
    is [None]. *)
Definition perform_ocr_easyocr {image : Type} (lib : imaging image)
  (readtext : image -> outcome (list str)) (img : image)
  : option str * option str :=
  match bind (resize_for_ocr lib img) readtext with
  | Returns res =>
      let text := join LF res in
      if is_empty (strip text)
      then (None, Some (lit "EasyOCR: No text detected"))
      else (Some text, None)
  | Raises e => (None, Some (lit "EasyOCR Error: " ++ e))
  end.

(** An expense as [add_expense] builds it.  The identifier is the time
    stamp of the clock, a float. *)
Record expense : Type := Expense {
  id : spec_float;
  expense_description : str;
  expense_amount : spec_float;
  category : str;
  date : str;
  source : str
}.

(** The state the functions share: the list [st.session_state.expenses]
    and the document last written to the file [DB_FILE], if any. *)
Record session : Type := Session {
  expenses : list expense;
  db_file : option (list expense)
}.

(** [save_expenses()] *)
Definition save_expenses (s : session) : session :=
  Session (expenses s) (Some (expenses s)).

(** [add_expense(description, amount, category, date, source)].  [now]
    is the time stamp the clock gives, [strftime] the writing of the date
    as year, month and day; the amount is a float already, which [float]
    returns as it is. *)
Definition add_expense {day : Type} (strftime : day -> str)
  (now : spec_float) (description : str) (amount : spec_float)
  (category : str) (date : day) (source : str) (s : session) : session :=
  save_expenses
    (Session (expenses s
              ++ [Expense now description amount category (strftime date)
                          source])
             (db_file s)).

(** [delete_expense(expense_id)] *)
Definition delete_expense (expense_id : spec_float) (s : session)
  : session :=
  save_expenses
    (Session (filter (fun e => negb (float_eq (id e) expense_id))
                     (expenses s))
             (db_file s)).

(** * Vocabulary of the properties *)

(** [x] is zero, finite or infinite with the sign [s]; not a nan. *)
Definition has_sign (s : bool) (x : spec_float) : Prop :=
  match x with
  | S754_zero s' | S754_infinity s' | S754_finite s' _ _ => s' = s
  | S754_nan => False
  end.

(** The 256 characters, and a test of a property on all of them. *)
Definition all_chars : list ascii := map ascii_of_nat (seq 0 256).

Definition forall_ascii (P : ascii -> bool) : bool := forallb P all_chars.

(** A digit is none of the characters the parser treats specially. *)
Definition plain (c : ascii) : bool :=
  (negb (Ascii.eqb c "_") && negb (Ascii.eqb c "-") && negb (Ascii.eqb c "+")
   && negb (Ascii.eqb c ".") && negb (Ascii.eqb c ",")
   && negb (Ascii.eqb c "S") && negb (Ascii.eqb c "$")
   && negb (Ascii.eqb c LF)
   && negb (float_space c) && negb (is_space c))%bool.

(** Every character of [w] is in the class [p]. *)
Definition all_in (p : ascii -> bool) (w : str) : Prop :=
  Forall (fun c => p c = true) w.

(** The words a pattern can match. *)
Fixpoint lang (r : regex) (w : str) : Prop :=
  match r with
  | Cls p => exists c, w = [c] /\ p c = true
  | Bnd => w = []
  | Seq r1 r2 => exists u v, w = u ++ v /\ lang r1 u /\ lang r2 v
  | Opt r1 => w = [] \/ lang r1 w
  | Star p => all_in p w
  | Plus p => w <> [] /\ all_in p w
  end.

(** A run of digits, maybe empty. *)
Definition digits (w : str) : Prop := all_in is_digit w.

(** Digits, then maybe a point and more digits. *)
Definition numeral (s : str) : Prop :=
  exists ip fp, ip <> [] /\ digits ip /\ digits fp /\
                (s = ip \/ s = ip ++ "."%char :: fp).

(** The float is the one nearest to a decimal with two fraction digits,
    [k / 100]; it is the infinity when [k / 100] is beyond the floats. *)
Definition two_decimals (x : spec_float) : Prop :=
  exists k : Z, (0 <= k)%Z /\ x = dec k (-2).

(** Some line contains [total], whatever the case of its letters, and
    holds a numeric substring. *)
Definition total_line_with_number (lines : list str) : bool :=
  existsb (fun line => contains (lower line) (lit "total")
                       && negb (is_empty (findall pat_number line)))%bool
          lines.



(** The first character, if there is one, is not white space. *)
Definition head_ok (s : str) : Prop :=
  match s with
  | [] => True
  | c :: _ => is_space c = false
  end.

(** A line: not empty, no white space at either end, no line feed. *)
Definition is_line (l : str) : Prop :=
  l <> [] /\ strip l = l /\ ~ In LF l.

(** Every item of the loop has a line of the text as its description,
    and that line does not start with a reserved keyword. *)
Definition from_lines (lines : list str) (it : item) : Prop :=
  In (description it) lines /\ reserved (description it) = false.








(** The two halves of the bound on descriptions. *)
Definition description_nonempty (it : item) : Prop := description it <> [].

Definition description_short (it : item) : Prop :=
  length (description it) <= 50.

(** The texts of examples 1 and 2. *)
Definition example1 : str := lit "Coffee\n4.50\nBagel\n3.25\nTotal\n7.75".

Definition example2 : str := lit "Bread 2,50\nMilk 1,20".

(** The lines of a text without the strip of the whole text. *)
Definition lines_of (text : str) : list str :=
  map strip (filter (fun x => negb (is_empty (strip x))) (split LF text)).

(** [u] is [v] with some elements left out, in the same order. *)
Inductive subseq {A : Type} : list A -> list A -> Prop :=
| subseq_nil : subseq [] []
| subseq_skip x u v : subseq u v -> subseq u (x :: v)
| subseq_take x u v : subseq u v -> subseq (x :: u) (x :: v).

(** The resized image has the size that was asked for. *)
Definition resize_gives_size {image : Type} (lib : imaging image) : Prop :=
  forall img sz img', resize lib img sz = Returns img' -> size lib img' = sz.

(** An imaging library on images that are their size only. *)
Definition sizes_only : imaging (Z * Z) :=
  Imaging (Z * Z) (fun img => img) (fun _ sz => Returns sz).

(** Every character of the text is white space. *)
Definition blank (s : str) : Prop := all_in is_space s.


(** No two expenses of the list have equal identifiers. *)
Definition distinct_ids (l : list expense) : Prop :=
  ForallOrdPairs (fun a b => float_eq (id a) (id b) = false) l.

(** [math.isfinite(x)] *)
Definition float_finite (x : spec_float) : bool :=
  match x with
  | S754_zero _ | S754_finite _ _ _ => true
  | S754_infinity _ | S754_nan => false
  end.

(** A value rounded to two decimal digits: a finite float, the one
    nearest to a decimal with two fraction digits. *)
Definition rounded_two_decimals (x : spec_float) : Prop :=
  float_finite x = true /\ two_decimals x.

(** A line of the total whose number has 400 digits. *)
Definition total_overflow_text : str := lit "Total " ++ repeat "9"%char 400.

(** The message of the wrapper when the recognizer reads nothing. *)
Definition no_text_detected : str := lit "EasyOCR: No text detected".

(** * Properties *)

(** ** Signs of the floats the parser builds *)

Lemma shr_1_nonneg mrs : (0 <= shr_m mrs)%Z -> (0 <= shr_m (shr_1 mrs))%Z.
Proof.
  destruct mrs as [m r s]; simpl.
  destruct m as [|p|p]; [|destruct p|]; simpl; lia.
Qed.

Lemma iter_shr_1_nonneg p :
  forall mrs, (0 <= shr_m mrs)%Z -> (0 <= shr_m (iter_pos shr_1 p mrs))%Z.
Proof.
  induction p as [p IH|p IH|]; intros mrs H; simpl.
  - apply IH, IH, shr_1_nonneg, H.
  - apply IH, IH, H.
  - apply shr_1_nonneg, H.
Qed.

Lemma shr_fexp_nonneg m e l :
  (0 <= m)%Z -> (0 <= shr_m (fst (shr_fexp prec emax m e l)))%Z.
Proof.
  intros H. unfold shr_fexp, shr.
  assert (H0 : (0 <= shr_m (shr_record_of_loc m l))%Z)
    by (destruct l as [|[]]; exact H).
  destruct (fexp prec emax (Zdigits2 m + e) - e)%Z; simpl; auto.
  apply iter_shr_1_nonneg, H0.
Qed.

Lemma round_nearest_even_nonneg m l :
  (0 <= m)%Z -> (0 <= round_nearest_even m l)%Z.
Proof.
  intros H. destruct l as [|[]]; simpl; try lia.
  destruct (Z.even m); lia.
Qed.

Lemma binary_round_aux_sign s m e l :
  (0 <= m)%Z -> has_sign s (binary_round_aux prec emax s m e l).
Proof.
  intros H. unfold binary_round_aux.
  pose proof (shr_fexp_nonneg m e l H) as H1.
  destruct (shr_fexp prec emax m e l) as [mrs1 e1]; simpl in H1.
  pose proof (shr_fexp_nonneg _ e1 loc_Exact
                (round_nearest_even_nonneg _ (loc_of_shr_record mrs1) H1)) as H2.
  destruct (shr_fexp prec emax _ e1 loc_Exact) as [mrs2 e2]; simpl in H2.
  destruct (shr_m mrs2) as [|p|p]; [exact eq_refl| |lia].
  destruct (e2 <=? emax - prec)%Z; exact eq_refl.
Qed.

Lemma float_of_ratio_sign neg n d : has_sign neg (float_of_ratio neg n d).
Proof.
  unfold float_of_ratio, SFdiv, SFdiv_core_binary.
  set (m' := match _ with Zpos _ => _ | Z0 => _ | Zneg _ => _ end).
  assert (Hm : (0 <= m')%Z).
  { subst m'. destruct (_ - _ - _)%Z; try lia.
    apply Z.shiftl_nonneg. lia. }
  pose proof (Z_div_mod m' (Zpos d) eq_refl) as Hd.
  destruct (Z.div_eucl m' (Zpos d)) as [q r].
  replace (xorb neg false) with neg by (destruct neg; reflexivity).
  apply binary_round_aux_sign. nia.
Qed.

Lemma decimal_to_float_sign neg m e :
  (0 <= m)%Z -> has_sign neg (decimal_to_float neg m e).
Proof.
  intros H. destruct m as [|p|p]; unfold decimal_to_float.
  - exact eq_refl.
  - apply float_of_ratio_sign.
  - lia.
Qed.

Lemma py_round2_sign s x : has_sign s x -> has_sign s (py_round2 x).
Proof.
  destruct x as [s'|s'| |s' m e]; simpl; auto.
  intros ->. destruct (hundredths m e); try exact eq_refl.
  apply float_of_ratio_sign.
Qed.

Lemma has_sign_nonneg x : has_sign false x -> float_nonneg x = true.
Proof.
  destruct x as [s|s| |s m e]; simpl; try contradiction; intros ->; reflexivity.
Qed.

(** ** Facts about characters, checked on the 256 of them *)

Lemma forall_ascii_spec P : forall_ascii P = true -> forall c, P c = true.
Proof.
  intros H c. unfold forall_ascii in H. rewrite forallb_forall in H.
  apply H. unfold all_chars. rewrite <- (ascii_nat_embedding c).
  apply in_map, in_seq. pose proof (nat_ascii_bounded c). lia.
Qed.

Lemma digit_plain c : is_digit c = true -> plain c = true.
Proof.
  revert c.
  assert (H : forall c, implb (is_digit c) (plain c) = true)
    by (apply forall_ascii_spec; vm_compute; reflexivity).
  intros c Hc. specialize (H c). rewrite Hc in H. exact H.
Qed.

Lemma plain_inv c :
  plain c = true ->
  Ascii.eqb c "_" = false /\ Ascii.eqb c "-" = false /\
  Ascii.eqb c "+" = false /\ Ascii.eqb c "." = false /\
  Ascii.eqb c "," = false /\ Ascii.eqb c "S" = false /\
  Ascii.eqb c "$" = false /\ Ascii.eqb c LF = false /\
  float_space c = false /\ is_space c = false.
Proof.
  unfold plain. rewrite !andb_true_iff, !negb_true_iff. tauto.
Qed.

(** ** Soundness of the matcher *)

Lemma star_sound p s :
  forall prev st, In st (star p prev s) ->
  exists w, s = w ++ snd st /\ all_in p w.
Proof.
  induction s as [|c s IH]; intros prev st H; simpl in H.
  - destruct H as [<-|[]]. exists []. split; [reflexivity|constructor].
  - destruct (p c) eqn:Hc.
    + apply in_app_or in H. destruct H as [H|[<-|[]]].
      * destruct (IH _ _ H) as (w & -> & Hw).
        exists (c :: w). split; [reflexivity|constructor; assumption].
      * exists []. split; [reflexivity|constructor].
    + destruct H as [<-|[]]. exists []. split; [reflexivity|constructor].
Qed.

Lemma run_sound r :
  forall st st', In st' (run r st) ->
  exists w, snd st = w ++ snd st' /\ lang r w.
Proof.
  induction r as [p| |r1 IH1 r2 IH2|r1 IH1|p|p]; intros [prev s] st' H;
    simpl in H; simpl snd.
  - destruct s as [|c s]; [contradiction|].
    destruct (p c) eqn:Hc; [|contradiction].
    destruct H as [<-|[]]. exists [c]. split; [reflexivity|].
    exists c. auto.
  - destruct (at_boundary prev s); [|contradiction].
    destruct H as [<-|[]]. exists []. split; reflexivity.
  - apply in_flat_map in H. destruct H as (st1 & H1 & H2).
    destruct (IH1 _ _ H1) as (u & Hu & Lu).
    destruct (IH2 _ _ H2) as (v & Hv & Lv).
    simpl in Hu. exists (u ++ v). split.
    + rewrite Hu, Hv, app_assoc. reflexivity.
    + exists u, v. auto.
  - apply in_app_or in H. destruct H as [H|[<-|[]]].
    + destruct (IH1 _ _ H) as (w & Hw & Lw). exists w. simpl in Hw.
      split; [assumption|right; assumption].
    + exists []. split; [reflexivity|left; reflexivity].
  - destruct (star_sound _ _ _ _ H) as (w & Hw & Lw). exists w. auto.
  - destruct s as [|c s]; [contradiction|].
    destruct (p c) eqn:Hc; [|contradiction].
    destruct (star_sound _ _ _ _ H) as (w & -> & Lw).
    exists (c :: w). split; [reflexivity|].
    split; [discriminate|constructor; assumption].
Qed.

Lemma match_at_sound r prev s n :
  match_at r prev s = Some n ->
  lang r (firstn n s) /\ n <= length s.
Proof.
  unfold match_at. destruct (run r (prev, s)) as [|[p' rest] l] eqn:E;
    [discriminate|].
  intros [= <-].
  destruct (run_sound r (prev, s) (p', rest)) as (w & Hw & Lw).
  { rewrite E. left. reflexivity. }
  simpl in Hw. subst s. rewrite length_app.
  replace (length w + length rest - length rest) with (length w) by lia.
  rewrite firstn_app, firstn_all, Nat.sub_diag, firstn_O, app_nil_r.
  split; [assumption|lia].
Qed.

Lemma findall_from_sound r s :
  forall prev skip m, In m (findall_from r prev s skip) -> lang r m.
Proof.
  induction s as [|c s IH]; intros prev skip m H; simpl in H;
    [contradiction|].
  destruct skip as [|k]; [|eauto].
  destruct (match_at r prev (c :: s)) as [n|] eqn:E; [|eauto].
  destruct H as [<-|H]; [|eauto].
  apply (match_at_sound _ _ _ _ E).
Qed.

Lemma findall_sound r s m : In m (findall r s) -> lang r m.
Proof. apply findall_from_sound. Qed.

Lemma last_match_in (l : list str) : l <> [] -> In (last_match l) l.
Proof.
  unfold last_match. induction l as [|x l IH]; [congruence|].
  intros _. destruct l as [|y l]; [left; reflexivity|].
  right. apply IH. discriminate.
Qed.

(** ** [float] on the numerals the patterns match *)

Lemma digits_plain w : digits w -> all_in plain w.
Proof.
  unfold digits, all_in. apply Forall_impl. exact digit_plain.
Qed.

Lemma numeral_chars s :
  numeral s -> all_in (fun c => is_digit c || Ascii.eqb c ".")%bool s.
Proof.
  intros (ip & fp & _ & Hi & Hf & [->| ->]); unfold all_in, digits in *.
  - eapply Forall_impl; [|exact Hi]. intros c ->. reflexivity.
  - apply Forall_app. split; [|constructor; [reflexivity|]];
      (eapply Forall_impl; [|eassumption]); intros c ->; reflexivity.
Qed.

Lemma drop_underscores_id s :
  forall prev, Ascii.eqb prev "_" = false ->
  all_in (fun c => negb (Ascii.eqb c "_")) s ->
  drop_underscores prev s = Some s.
Proof.
  induction s as [|c s IH]; intros prev Hp H; simpl.
  - rewrite Hp. reflexivity.
  - inversion H as [|? ? Hc Hs]; subst. apply negb_true_iff in Hc.
    rewrite Hc, Hp. simpl. rewrite (IH c Hc Hs). reflexivity.
Qed.

Lemma lstrip_by_id p s :
  all_in (fun c => negb (p c)) s -> lstrip_by p s = s.
Proof.
  destruct s as [|c s]; [reflexivity|]. intros H. inversion H; subst.
  simpl. destruct (p c); [discriminate|reflexivity].
Qed.

Lemma rstrip_by_id p s :
  all_in (fun c => negb (p c)) s -> rstrip_by p s = s.
Proof.
  intros H. unfold rstrip_by. rewrite lstrip_by_id.
  - apply rev_involutive.
  - apply Forall_rev, H.
Qed.

Lemma span_digits ip rest :
  digits ip ->
  match rest with [] => True | c :: _ => is_digit c = false end ->
  span is_digit (ip ++ rest) = (ip, rest).
Proof.
  intros H Hr. induction H as [|c ip Hc _ IH]; simpl.
  - destruct rest as [|c rest]; [reflexivity|]. simpl. rewrite Hr.
    reflexivity.
  - rewrite Hc, IH. reflexivity.
Qed.

Lemma digits_val_nonneg ds : (0 <= digits_val ds)%Z.
Proof.
  unfold digits_val.
  assert (H : forall acc, (0 <= acc)%Z ->
            (0 <= fold_left (fun a c => a * 10 + digit_val c) ds acc)%Z).
  { induction ds as [|c ds IH]; intros acc Ha; simpl; [assumption|].
    apply IH. unfold digit_val. lia. }
  apply H. lia.
Qed.

Lemma strtod_numeral ip fp :
  ip <> [] -> digits ip -> digits fp ->
  strtod ip = Some (decimal_to_float false (digits_val ip) 0) /\
  strtod (ip ++ "."%char :: fp) =
    Some (decimal_to_float false (digits_val (ip ++ fp))
            (- Z.of_nat (length fp))).
Proof.
  intros Hne Hi Hf.
  assert (Hs : forall rest, take_sign (ip ++ rest) = (false, ip ++ rest)).
  { intros rest. destruct ip as [|c ip]; [congruence|].
    inversion Hi as [|? ? Hc _]; subst.
    destruct (plain_inv c (digit_plain c Hc)) as (_ & Hm & Hp & _).
    simpl. rewrite Hm, Hp. reflexivity. }
  assert (He : is_empty ip = false) by (destruct ip; [congruence|reflexivity]).
  split; unfold strtod.
  - rewrite <- (app_nil_r ip) at 1. rewrite Hs, span_digits by (simpl; auto).
    rewrite He. simpl. rewrite app_nil_r. reflexivity.
  - rewrite Hs, span_digits by (simpl; auto).
    rewrite Ascii.eqb_refl.
    rewrite <- (app_nil_r fp) at 1. rewrite span_digits by (simpl; auto).
    rewrite He. simpl. reflexivity.
Qed.

(** [float] accepts every numeral, and reads a float that is not
    negative. *)
Lemma float_of_numeral s :
  numeral s -> exists x, float_of_str s = Some x /\ has_sign false x.
Proof.
  intros Hn. pose proof (numeral_chars s Hn) as Hc.
  destruct Hn as (ip & fp & Hne & Hi & Hf & Hs).
  assert (Hplain : all_in (fun c => negb (Ascii.eqb c "_")
                                    && negb (float_space c))%bool s).
  { eapply Forall_impl; [|exact Hc]. intros c H. simpl in H.
    apply orb_true_iff in H. destruct H as [H|H].
    - destruct (plain_inv c (digit_plain c H)) as (-> & _ & _ & _ & _ & _ & _ & _ & -> & _).
      reflexivity.
    - apply Ascii.eqb_eq in H. subst c. reflexivity. }
  unfold float_of_str.
  rewrite drop_underscores_id; [|reflexivity|].
  2:{ eapply Forall_impl; [|exact Hplain]. intros c H. simpl in H.
      apply andb_true_iff in H. tauto. }
  assert (Hsp : all_in (fun c => negb (float_space c)) s).
  { eapply Forall_impl; [|exact Hplain]. intros c H. simpl in H.
    apply andb_true_iff in H. tauto. }
  rewrite lstrip_by_id, rstrip_by_id by exact Hsp.
  assert (Hse : is_empty s = false).
  { destruct ip as [|c ip]; [congruence|].
    destruct Hs as [->| ->]; reflexivity. }
  rewrite Hse.
  destruct (strtod_numeral ip fp Hne Hi Hf) as [H1 H2].
  destruct Hs as [->| ->]; eexists; (split; [eassumption|]);
    apply decimal_to_float_sign, digits_val_nonneg.
Qed.

(** ** What the four patterns match *)

Lemma remove_char_app c u v :
  remove_char c (u ++ v) = remove_char c u ++ remove_char c v.
Proof. apply filter_app. Qed.

Lemma remove_char_id c w :
  all_in (fun d => negb (Ascii.eqb d c)) w -> remove_char c w = w.
Proof.
  intros H. unfold remove_char. induction H as [|d w Hd _ IH]; simpl.
  - reflexivity.
  - rewrite Hd, IH. reflexivity.
Qed.

Lemma remove_comma_digits w : digits w -> remove_char "," w = w.
Proof.
  intros H. apply remove_char_id. eapply Forall_impl; [|exact H].
  intros c Hc. simpl.
  destruct (plain_inv c (digit_plain c Hc)) as (_ & _ & _ & _ & -> & _).
  reflexivity.
Qed.

Lemma remove_S_digits w : digits w -> remove_char "S" w = w.
Proof.
  intros H. apply remove_char_id. eapply Forall_impl; [|exact H].
  intros c Hc. simpl.
  destruct (plain_inv c (digit_plain c Hc)) as (_ & _ & _ & _ & _ & -> & _).
  reflexivity.
Qed.

Lemma digits_app u v : digits u -> digits v -> digits (u ++ v).
Proof. intros Hu Hv. apply Forall_app. split; assumption. Qed.

Lemma numeral_digits w : w <> [] -> digits w -> numeral w.
Proof.
  intros Hne H. exists w, []. repeat split; auto. constructor.
Qed.

Lemma numeral_point u v :
  u <> [] -> digits u -> digits v -> numeral (u ++ "."%char :: v).
Proof. intros Hne Hu Hv. exists u, v. repeat split; auto. Qed.

Lemma app_not_nil (u v : str) : u <> [] -> u ++ v <> [].
Proof. destruct u; [congruence|discriminate]. Qed.






Lemma pat_number_numeral m :
  lang pat_number m ->
  numeral (remove_char "S" (remove_char "," m)).
Proof.
  intros (u & v & -> & [Hne Hu] & (p & w & -> & Hp & Hw)).
  change (digits w) in Hw.
  rewrite !remove_char_app, (remove_comma_digits u),
    (remove_comma_digits w), (remove_S_digits u), (remove_S_digits w)
    by assumption.
  destruct Hp as [->|(c & -> & Hc)].
  - apply numeral_digits; [apply app_not_nil, Hne|].
    apply digits_app; assumption.
  - unfold dot_or_comma in Hc. apply orb_true_iff in Hc.
    destruct Hc as [Hc|Hc]; apply Ascii.eqb_eq in Hc; subst c.
    + apply numeral_point; assumption.
    + apply numeral_digits; [apply app_not_nil, Hne|].
      apply digits_app; assumption.
Qed.

(** ** The scan for the total never raises *)

Lemma total_scan_ok lines :
  exists x, total_scan lines = Some x /\ has_sign false x.
Proof.
  induction lines as [|line lines IH]; simpl.
  - exists (S754_zero false). split; reflexivity.
  - destruct (contains (lower line) (lit "total")); [|exact IH].
    destruct (findall pat_number line) as [|m ms] eqn:E; [exact IH|].
    simpl is_empty. cbv iota.
    apply float_of_numeral, pat_number_numeral.
    apply (findall_sound _ line). rewrite E.
    apply last_match_in. discriminate.
Qed.

(** ** No exception leaves the parser *)

Lemma parse_receipt_text_eq text :
  exists x, total_scan (normalize text) = Some x /\ has_sign false x /\
    parse_receipt_text text =
      Some (Result (if is_empty (paired_items (normalize text))
                    then fallback_items (normalize text)
                    else paired_items (normalize text))
                   (py_round2 x)).
Proof.
  destruct (total_scan_ok (normalize text)) as (x & Hx & Hs).
  exists x. repeat split; try assumption.
  unfold parse_receipt_text. rewrite Hx. reflexivity.
Qed.

Lemma normalize_empty : normalize (lit "") = [].
Proof. reflexivity. Qed.

(** C8. For every input text the parser returns a result: the one
    conversion that no handler guards, the one of the total, never fails.
    On the empty text, and whenever no line is left after normalization,
    the result is the empty item list with the total 0.00. *)
Theorem parse_never_raises :
  (forall text, exists r, parse_receipt_text text = Some r /\
     (normalize text = [] -> r = Result [] (dec 0 (-2)))) /\
  parse_receipt_text (lit "") = Some (Result [] (dec 0 (-2))).
Proof.
  split; [|reflexivity].
  intros text. destruct (parse_receipt_text_eq text) as (x & Hx & _ & ->).
  eexists. split; [reflexivity|].
  intros E. rewrite E in *. simpl in Hx. injection Hx as <-. reflexivity.
Qed.

(** ** The total *)

Lemma dec_hundredths k : dec (Zpos k) (-2) = float_of_ratio false k 100.
Proof.
  unfold dec, decimal_to_float. simpl Z.abs.
  change (Z.to_pos (10 ^ Z.max (-2) 0)) with 1%positive.
  change (Z.to_pos (10 ^ Z.max (- -2) 0)) with 100%positive.
  cbv iota beta. rewrite Pos.mul_1_r. reflexivity.
Qed.

Lemma py_round2_two_decimals x :
  has_sign false x -> two_decimals (py_round2 x).
Proof.
  destruct x as [s|s| |s m e]; simpl; try contradiction; intros ->.
  - exists 0%Z. split; [lia|reflexivity].
  - exists (10 ^ 311)%Z. split; [lia|]. vm_compute. reflexivity.
  - destruct (hundredths m e) as [|k|k].
    + exists 0%Z. split; [lia|reflexivity].
    + exists (Zpos k). split; [lia|]. symmetry. apply dec_hundredths.
    + exists 0%Z. split; [lia|reflexivity].
Qed.

Lemma total_scan_default lines :
  total_line_with_number lines = false ->
  total_scan lines = Some (S754_zero false).
Proof.
  induction lines as [|line lines IH]; simpl; [reflexivity|].
  intros H. apply orb_false_iff in H. destruct H as [H1 H2].
  destruct (contains (lower line) (lit "total")); [|auto].
  simpl in H1. apply negb_false_iff in H1. rewrite H1. auto.
Qed.

(** C6, as the code has it.  For every input text the total of the
    result is a value rounded to two decimal digits, or plus infinity,
    which is what the conversion gives for a number beyond the range of
    the floats; it is not negative when some line that contains "total"
    holds a numeric substring, and it is 0.00 otherwise. *)
Theorem total_rounded_or_infinite :
  forall text, exists r,
    parse_receipt_text text = Some r /\
    (rounded_two_decimals (total r) \/ total r = S754_infinity false) /\
    (total_line_with_number (normalize text) = true ->
     float_nonneg (total r) = true) /\
    (total_line_with_number (normalize text) = false ->
     total r = dec 0 (-2)).
Proof.
  intros text. destruct (parse_receipt_text_eq text) as (x & Hx & Hs & ->).
  eexists. split; [reflexivity|]. simpl total.
  pose proof (py_round2_sign false x Hs) as Hr.
  pose proof (py_round2_two_decimals x Hs) as Hd.
  repeat split.
  - destruct (py_round2 x) as [s|s| |s m e]; simpl in Hr.
    + left. split; [reflexivity|exact Hd].
    + right. rewrite Hr. reflexivity.
    + contradiction.
    + left. split; [reflexivity|exact Hd].
  - intros _. apply has_sign_nonneg, Hr.
  - intros H. rewrite (total_scan_default _ H) in Hx. injection Hx as <-.
    reflexivity.
Qed.

(** The claim as it is written fails on a total of 400 digits: the
    conversion overflows, and the total is plus infinity, which is not a
    value rounded to two decimal digits. *)
Lemma total_overflows_to_infinity :
  exists r,
    parse_receipt_text total_overflow_text = Some r /\
    total r = S754_infinity false /\
    ~ rounded_two_decimals (total r).
Proof.
  eexists. split; [vm_compute; reflexivity|].
  split; [reflexivity|]. intros [H _]. discriminate H.
Qed.

(** ** One line only *)

(** C9. When the normalized text has exactly one line, the loop over
    pairs emits nothing, and the items of the result are those of the
    single-line patterns. *)
Theorem single_line_uses_fallback :
  forall text line,
    normalize text = [line] ->
    paired_items (normalize text) = [] /\
    exists r, parse_receipt_text text = Some r /\
              items r = fallback_items [line].
Proof.
  intros text line E.
  destruct (parse_receipt_text_eq text) as (x & _ & _ & ->).
  rewrite E. split; [reflexivity|].
  eexists. split; reflexivity.
Qed.

Lemma single_line_uses_fallback_witness :
  normalize (lit "Bread 2.50") = [lit "Bread 2.50"] /\
  paired_items (normalize (lit "Bread 2.50")) = [] /\
  exists r, parse_receipt_text (lit "Bread 2.50") = Some r /\
            items r = fallback_items [lit "Bread 2.50"].
Proof.
  split; [reflexivity|].
  apply (single_line_uses_fallback (lit "Bread 2.50")). reflexivity.
Defined.

(** ** The first line of the total that holds a number *)

Lemma total_scan_skips pre :
  forall line post,
    Forall (fun l => contains (lower l) (lit "total") = false \/
                     findall pat_number l = []) pre ->
    contains (lower line) (lit "total") = true ->
    findall pat_number line <> [] ->
    total_scan (pre ++ line :: post) =
      float_of_str (remove_char "S" (remove_char ","
                      (last_match (findall pat_number line)))).
Proof.
  induction pre as [|l pre IH]; intros line post Hpre Hl Hn; simpl.
  - rewrite Hl. destruct (findall pat_number line); [congruence|reflexivity].
  - inversion Hpre as [|? ? [H|H] Hrest]; subst; rewrite H.
    + apply IH; assumption.
    + destruct (contains (lower l) (lit "total")); simpl; apply IH; assumption.
Qed.

(** C10. A line that contains "total" and no digit does not end the scan:
    when every line before [line] lacks "total" or lacks a numeric
    substring, and [line] has both, the total is the last numeric
    substring of [line], converted and rounded. *)
Theorem total_from_first_line_with_number :
  forall text pre line post,
    normalize text = pre ++ line :: post ->
    Forall (fun l => contains (lower l) (lit "total") = false \/
                     findall pat_number l = []) pre ->
    contains (lower line) (lit "total") = true ->
    findall pat_number line <> [] ->
    exists r x,
      parse_receipt_text text = Some r /\
      float_of_str (remove_char "S" (remove_char ","
                      (last_match (findall pat_number line)))) = Some x /\
      total r = py_round2 x.
Proof.
  intros text pre line post E Hpre Hl Hn.
  destruct (parse_receipt_text_eq text) as (x & Hx & _ & ->).
  rewrite E in Hx. rewrite (total_scan_skips pre line post Hpre Hl Hn) in Hx.
  eexists. exists x. repeat split. exact Hx.
Qed.

Lemma total_from_first_line_with_number_witness :
  normalize (lit "Subtotal\nTotal due 12.34\nCash 20.00") =
    [lit "Subtotal"] ++ lit "Total due 12.34" :: [lit "Cash 20.00"] /\
  exists r x,
    parse_receipt_text (lit "Subtotal\nTotal due 12.34\nCash 20.00") = Some r /\
    float_of_str (remove_char "S" (remove_char ","
       (last_match (findall pat_number (lit "Total due 12.34"))))) = Some x /\
    total r = py_round2 x.
Proof.
  split; [reflexivity|].
  apply (total_from_first_line_with_number
           (lit "Subtotal\nTotal due 12.34\nCash 20.00")
           [lit "Subtotal"] (lit "Total due 12.34") [lit "Cash 20.00"]).
  - reflexivity.
  - constructor; [right; reflexivity|constructor].
  - reflexivity.
  - discriminate.
Defined.

(** ** Amounts of the single-line patterns *)






(** ** Lines of a normalized text *)

Lemma lstrip_head s : head_ok (lstrip s).
Proof.
  induction s as [|c s IH]; simpl; [exact I|].
  destruct (is_space c) eqn:E; [exact IH|exact E].
Qed.

Lemma lstrip_fix s : head_ok s -> lstrip s = s.
Proof.
  destruct s as [|c s]; simpl; [reflexivity|]. intros ->. reflexivity.
Qed.

Lemma lstrip_suffix s : exists ws, s = ws ++ lstrip s.
Proof.
  induction s as [|c s [ws IH]]; simpl.
  - exists []. reflexivity.
  - destruct (is_space c).
    + exists (c :: ws). simpl. f_equal. exact IH.
    + exists []. reflexivity.
Qed.

Lemma strip_decomp s : exists u v, s = u ++ strip s ++ v.
Proof.
  unfold strip, rstrip.
  destruct (lstrip_suffix s) as [u Hu].
  destruct (lstrip_suffix (rev (lstrip s))) as [w Hw].
  exists u, (rev w). rewrite Hu at 1. f_equal.
  rewrite <- rev_app_distr, <- Hw, rev_involutive. reflexivity.
Qed.

Lemma strip_ends s : head_ok (strip s) /\ head_ok (rev (strip s)).
Proof.
  split.
  - destruct (strip_decomp (lstrip s)) as (u & v & H).
    pose proof (lstrip_head s) as Hh.
    assert (E : strip (lstrip s) = strip s).
    { unfold strip. rewrite (lstrip_fix (lstrip s)); [reflexivity|exact Hh]. }
    rewrite E in H. clear E.
    unfold strip, rstrip in *.
    destruct (lstrip_suffix (rev (lstrip s))) as [w Hw].
    apply (f_equal (@rev ascii)) in Hw.
    rewrite rev_involutive, rev_app_distr in Hw.
    destruct (rev (lstrip (rev (lstrip s)))) as [|c y]; [exact I|].
    rewrite Hw in Hh. exact Hh.
  - unfold strip, rstrip. rewrite rev_involutive. apply lstrip_head.
Qed.

Lemma strip_fix s : head_ok s -> head_ok (rev s) -> strip s = s.
Proof.
  intros H1 H2. unfold strip, rstrip.
  rewrite (lstrip_fix s H1), (lstrip_fix (rev s) H2).
  apply rev_involutive.
Qed.

Lemma strip_idem s : strip (strip s) = strip s.
Proof. apply strip_fix; apply strip_ends. Qed.

Lemma strip_incl s c : In c (strip s) -> In c s.
Proof.
  intros H. destruct (strip_decomp s) as (u & v & E). rewrite E.
  apply in_or_app. right. apply in_or_app. left. exact H.
Qed.

Lemma split_acc_no_sep sep s :
  forall cur p, ~ In sep cur -> In p (split_acc sep cur s) -> ~ In sep p.
Proof.
  induction s as [|c s IH]; intros cur p Hc H; simpl in H.
  - destruct H as [<-|[]]. rewrite <- in_rev. exact Hc.
  - destruct (Ascii.eqb c sep) eqn:E.
    + destruct H as [<-|H].
      * rewrite <- in_rev. exact Hc.
      * apply (IH [] p); [intros []|exact H].
    + apply (IH (c :: cur) p); [|exact H].
      intros [->|Hin]; [|auto].
      rewrite Ascii.eqb_refl in E. discriminate.
Qed.

Lemma normalize_lines text l : In l (normalize text) -> is_line l.
Proof.
  unfold normalize. intros H. apply in_map_iff in H.
  destruct H as (x & <- & H). apply filter_In in H. destruct H as [Hx Hn].
  repeat split.
  - destruct (strip x); [discriminate|discriminate].
  - apply strip_idem.
  - intros Hin. apply strip_incl in Hin. revert Hin.
    apply (split_acc_no_sep LF (strip text) [] x); [intros []|exact Hx].
Qed.

Lemma split_acc_piece sep x :
  ~ In sep x ->
  forall cur rest,
    split_acc sep cur (x ++ rest) = split_acc sep (rev x ++ cur) rest.
Proof.
  induction x as [|c x IH]; intros Hx cur rest; simpl; [reflexivity|].
  destruct (Ascii.eqb c sep) eqn:E.
  - apply Ascii.eqb_eq in E. subst c. exfalso. apply Hx. left. reflexivity.
  - rewrite IH by (intros Hin; apply Hx; right; exact Hin).
    rewrite <- app_assoc. reflexivity.
Qed.

Lemma split_join sep ls :
  ls <> [] -> Forall (fun l => ~ In sep l) ls ->
  split sep (join sep ls) = ls.
Proof.
  unfold split. induction ls as [|x ls IH]; intros Hne H; [congruence|].
  inversion H as [|? ? Hx Hls]; subst.
  destruct ls as [|y ls].
  - simpl. rewrite <- (app_nil_r x) at 1.
    rewrite split_acc_piece by exact Hx. simpl.
    rewrite app_nil_r, rev_involutive. reflexivity.
  - change (join sep (x :: y :: ls)) with (x ++ sep :: join sep (y :: ls)).
    rewrite split_acc_piece by exact Hx. simpl split_acc.
    rewrite Ascii.eqb_refl, app_nil_r, rev_involutive.
    f_equal. apply IH; [discriminate|exact Hls].
Qed.

Lemma join_head sep x ls : x <> [] -> head_ok x -> head_ok (join sep (x :: ls)).
Proof.
  intros Hne H. destruct x as [|c x]; [congruence|].
  destruct ls; exact H.
Qed.

Lemma join_not_nil sep x ls : x <> [] -> join sep (x :: ls) <> [].
Proof.
  intros Hne. destruct x as [|c x]; [congruence|]. destruct ls; discriminate.
Qed.

Lemma last_ok_app (u v : str) :
  v <> [] -> head_ok (rev v) -> head_ok (rev (u ++ v)).
Proof.
  intros Hne H. rewrite rev_app_distr.
  destruct (rev v) as [|c w] eqn:E.
  - apply (f_equal (@rev ascii)) in E. rewrite rev_involutive in E.
    contradiction.
  - exact H.
Qed.

Lemma join_last sep ls :
  ls <> [] -> Forall is_line ls -> head_ok (rev (join sep ls)).
Proof.
  induction ls as [|x ls IH]; intros Hne H; [congruence|].
  inversion H as [|? ? (Hx & Hs & _) Hls]; subst.
  destruct ls as [|y ls].
  - simpl. rewrite <- Hs. apply strip_ends.
  - change (join sep (x :: y :: ls)) with (x ++ sep :: join sep (y :: ls)).
    change (x ++ sep :: join sep (y :: ls))
      with (x ++ [sep] ++ join sep (y :: ls)).
    rewrite app_assoc. apply last_ok_app.
    + inversion Hls as [|? ? (Hy & _) _]; subst. apply join_not_nil, Hy.
    + apply IH; [discriminate|exact Hls].
Qed.

Lemma strip_lines ls :
  Forall is_line ls ->
  map strip (filter (fun x => negb (is_empty (strip x))) ls) = ls.
Proof.
  induction 1 as [|l ls (Hl & Hsl & _) _ IH]; [reflexivity|].
  simpl. rewrite Hsl.
  destruct l as [|c l]; [congruence|]. simpl. rewrite Hsl. f_equal.
  exact IH.
Qed.

(** Lines joined by line feeds normalize to themselves. *)
Lemma normalize_join ls :
  Forall is_line ls -> normalize (join LF ls) = ls.
Proof.
  intros H. destruct ls as [|x ls]; [reflexivity|].
  assert (Hs : strip (join LF (x :: ls)) = join LF (x :: ls)).
  { apply strip_fix.
    - inversion H as [|? ? (Hx & Hsx & _) _]; subst.
      apply join_head; [exact Hx|]. rewrite <- Hsx. apply strip_ends.
    - apply join_last; [discriminate|exact H]. }
  unfold normalize. rewrite Hs, split_join.
  - apply strip_lines, H.
  - discriminate.
  - eapply Forall_impl; [|exact H]. intros l (_ & _ & Hl). exact Hl.
Qed.

(** ** Items of the loop over pairs *)

Lemma list_pair_ind (A : Type) (P : list A -> Prop) :
  P [] -> (forall x, P [x]) ->
  (forall x y l, P (y :: l) -> P l -> P (x :: y :: l)) ->
  forall l, P l.
Proof.
  intros H0 H1 H2.
  assert (H : forall l, P l /\ forall x, P (x :: l)).
  { induction l as [|y l [IHl IHy]]; split; auto. }
  intros l. apply H.
Qed.

Lemma paired_loop_from_lines lines rest :
  forall acc,
    incl rest lines ->
    Forall (from_lines lines) acc ->
    Forall (from_lines lines) (paired_loop rest acc).
Proof.
  induction rest as [|x|desc price_line rest IH1 IH2] using list_pair_ind;
    intros acc Hin Hacc; try exact Hacc.
  assert (Hin1 : incl (price_line :: rest) lines)
    by (intros l Hl; apply Hin; right; exact Hl).
  assert (Hin2 : incl rest lines)
    by (intros l Hl; apply Hin1; right; exact Hl).
  cbn [paired_loop].
  destruct (float_of_str (clean_price price_line)) as [price|];
    [|apply IH1; assumption].
  destruct (reserved desc) eqn:Hr; [apply IH1; assumption|].
  apply IH2; [assumption|].
  apply Forall_app. split; [assumption|].
  constructor; [|constructor]. split; [|exact Hr].
  apply Hin. left. reflexivity.
Qed.

Lemma paired_items_from_lines lines :
  Forall (from_lines lines) (paired_items lines).
Proof.
  apply paired_loop_from_lines; [apply incl_refl|constructor].
Qed.

(** ** Formatting the items back and parsing them again *)





(** ** Descriptions: what holds on each path *)

Lemma fallback_line_descriptions line patterns :
  forall acc,
    Forall (fun it => description_nonempty it /\ description_short it) acc ->
    Forall (fun it => description_nonempty it /\ description_short it)
           (fallback_line patterns line acc).
Proof.
  induction patterns as [|r patterns IH]; intros acc Hacc; simpl;
    [assumption|].
  destruct (is_empty (findall r line)); [auto|].
  destruct (float_of_str _) as [price|]; [|auto].
  destruct (strip (sub_empty r line)) as [|c desc] eqn:E; simpl;
    [assumption|].
  destruct (1 <? S (length desc)); [|assumption].
  apply Forall_app. split; [assumption|]. constructor; [|constructor].
  split.
  - unfold description_nonempty. simpl. discriminate.
  - unfold description_short. cbn [description].
    apply (firstn_le_length 50 (c :: desc)).
Qed.

Lemma fallback_items_descriptions lines :
  Forall (fun it => description_nonempty it /\ description_short it)
         (fallback_items lines).
Proof.
  unfold fallback_items.
  assert (H : forall acc,
            Forall (fun it => description_nonempty it /\ description_short it)
                   acc ->
            Forall (fun it => description_nonempty it /\ description_short it)
              (fold_left (fun acc line => fallback_line price_patterns line acc)
                         lines acc)).
  { induction lines as [|line lines IH]; intros acc Hacc; [assumption|].
    cbn [fold_left]. apply IH, fallback_line_descriptions, Hacc. }
  apply H. constructor.
Qed.

(** The loop over pairs never emits a line that starts with a reserved
    keyword, and never an empty description. *)
Lemma paired_items_descriptions text :
  Forall (fun it => reserved (description it) = false /\
                    description_nonempty it)
         (paired_items (normalize text)).
Proof.
  eapply Forall_impl; [|apply paired_items_from_lines].
  intros it [Hin Hr]. split; [exact Hr|].
  apply (normalize_lines text), Hin.
Qed.

(** Under either strategy the description of an item is not empty. *)
Lemma descriptions_nonempty text :
  exists r, parse_receipt_text text = Some r /\
            Forall description_nonempty (items r).
Proof.
  destruct (parse_receipt_text_eq text) as (x & _ & _ & ->).
  eexists. split; [reflexivity|]. simpl items.
  destruct (is_empty (paired_items (normalize text))).
  - eapply Forall_impl; [|apply fallback_items_descriptions].
    intros it [H _]. exact H.
  - eapply Forall_impl; [|apply paired_items_descriptions].
    intros it [_ H]. exact H.
Qed.

(** ** The examples *)

(** C1, as the code has it.  On the text of example 1 the loop over pairs
    emits Coffee 4.50 and Bagel 3.25; the total is 0.00, because the line
    "Total" holds no digit and the scan reads numbers on that line only. *)
Theorem example1_parse :
  parse_receipt_text example1 =
    Some (Result [Item (lit "Coffee") (dec 450 (-2));
                  Item (lit "Bagel") (dec 325 (-2))]
                 (dec 0 (-2))).
Proof. reflexivity. Qed.

(** The result the claim gives for example 1, with the total 7.75, is not
    the result of the parser. *)
Lemma example1_total_not_775 :
  parse_receipt_text example1 <>
    Some (Result [Item (lit "Coffee") (dec 450 (-2));
                  Item (lit "Bagel") (dec 325 (-2))]
                 (dec 775 (-2))).
Proof. intros H. vm_compute in H. discriminate H. Qed.

(** C3, evaluated.  On the text of example 2 the loop over pairs emits
    nothing, the pattern with a comma matches "2,50" and "1,20", and the
    comma is dropped before the conversion: the amounts are 250 and 120,
    not 2.50 and 1.20. *)
Theorem example2_parse :
  paired_items (normalize example2) = [] /\
  parse_receipt_text example2 =
    Some (Result [Item (lit "Bread") (dec 250 0); Item (lit "Milk") (dec 120 0)]
                 (dec 0 (-2))) /\
  float_eq (dec 250 0) (dec 250 (-2)) = false /\
  float_eq (dec 120 0) (dec 120 (-2)) = false.
Proof. repeat split; reflexivity. Qed.

(** C2, evaluated.  A single line "Total 7.75" is not seen by the loop
    over pairs; the single-line patterns, which do not test the reserved
    keywords, emit it as an item. *)
Theorem total_line_emitted_by_fallback :
  paired_items (normalize (lit "Total 7.75")) = [] /\
  parse_receipt_text (lit "Total 7.75") =
    Some (Result [Item (lit "Total") (dec 775 (-2))] (dec 775 (-2))) /\
  reserved (lit "Total") = true.
Proof. repeat split; reflexivity. Qed.

(** C5, evaluated.  The loop over pairs keeps the whole line as the
    description: a line of 55 characters followed by a price gives an item
    whose description has 55 characters. *)
Theorem long_description_kept_by_pairs :
  parse_receipt_text
    (lit "Extended warranty and accidental damage protection plan\n19.99") =
    Some (Result
            [Item (lit "Extended warranty and accidental damage protection plan")
                  (dec 1999 (-2))]
            (dec 0 (-2))) /\
  length (lit "Extended warranty and accidental damage protection plan") = 55.
Proof. split; reflexivity. Qed.

(** * Further properties of the parser *)

(** ** Blank texts and the strip of the whole text *)

Lemma lstrip_blank s : blank s -> lstrip s = [].
Proof.
  induction 1 as [|c s Hc _ IH]; simpl; [reflexivity|].
  rewrite Hc. exact IH.
Qed.

Lemma strip_blank s : blank s -> strip s = [].
Proof. intros H. unfold strip. rewrite lstrip_blank by exact H. reflexivity. Qed.

Lemma lstrip_blank_app q p : blank q -> lstrip (q ++ p) = lstrip p.
Proof.
  induction 1 as [|c q Hc _ IH]; simpl; [reflexivity|].
  rewrite Hc. exact IH.
Qed.

Lemma lstrip_app_blank p q :
  blank q ->
  lstrip (p ++ q) = match lstrip p with [] => [] | _ => lstrip p ++ q end.
Proof.
  intros Hq. induction p as [|c p IH]; simpl.
  - apply lstrip_blank, Hq.
  - destruct (is_space c); [exact IH|reflexivity].
Qed.

Lemma strip_blank_app q p : blank q -> strip (q ++ p) = strip p.
Proof.
  intros H. unfold strip. rewrite lstrip_blank_app by exact H. reflexivity.
Qed.

Lemma strip_app_blank p q : blank q -> strip (p ++ q) = strip p.
Proof.
  intros H. unfold strip. rewrite lstrip_app_blank by exact H.
  destruct (lstrip p) as [|c a] eqn:E; [reflexivity|].
  unfold rstrip. rewrite rev_app_distr, lstrip_blank_app; [reflexivity|].
  apply Forall_rev, H.
Qed.

Lemma lstrip_prefix_blank s : exists ws, blank ws /\ s = ws ++ lstrip s.
Proof.
  induction s as [|c s (ws & Hws & IH)]; simpl.
  - exists []. split; [constructor|reflexivity].
  - destruct (is_space c) eqn:E.
    + exists (c :: ws). split; [constructor; assumption|].
      simpl. f_equal. exact IH.
    + exists []. split; [constructor|reflexivity].
Qed.

(** A text is its strip between two runs of white space. *)
Lemma strip_between_blanks s :
  exists u v, blank u /\ blank v /\ s = u ++ strip s ++ v.
Proof.
  unfold strip, rstrip.
  destruct (lstrip_prefix_blank s) as (u & Hu & Eu).
  destruct (lstrip_prefix_blank (rev (lstrip s))) as (w & Hw & Ew).
  exists u, (rev w). repeat split; [exact Hu|apply Forall_rev, Hw|].
  rewrite Eu at 1. f_equal.
  rewrite <- rev_app_distr, <- Ew, rev_involutive. reflexivity.
Qed.

Lemma strip_nil_blank s : strip s = [] -> blank s.
Proof.
  intros H. destruct (strip_between_blanks s) as (u & v & Hu & Hv & E).
  rewrite H in E. rewrite E. apply Forall_app. split; assumption.
Qed.

Lemma split_acc_not_nil sep s : forall cur, split_acc sep cur s <> [].
Proof.
  induction s as [|c s IH]; intros cur; simpl; [discriminate|].
  destruct (Ascii.eqb c sep); [discriminate|apply IH].
Qed.

Lemma split_acc_cur sep s :
  forall cur,
    split_acc sep cur s =
      match split_acc sep [] s with
      | p :: rest => (rev cur ++ p) :: rest
      | [] => []
      end.
Proof.
  induction s as [|c s IH]; intros cur; simpl.
  - rewrite app_nil_r. reflexivity.
  - destruct (Ascii.eqb c sep).
    + rewrite app_nil_r. reflexivity.
    + rewrite (IH (c :: cur)), (IH [c]).
      destruct (split_acc sep [] s) as [|p rest]; [reflexivity|].
      simpl. rewrite <- app_assoc. reflexivity.
Qed.

(** The pieces of two texts put end to end: the last piece of the first
    text and the first piece of the second one make one piece. *)
Lemma split_acc_app sep b a :
  forall cur,
    split_acc sep cur (a ++ b) =
      match split_acc sep [] b with
      | q :: rb =>
          removelast (split_acc sep cur a)
            ++ (last (split_acc sep cur a) [] ++ q) :: rb
      | [] => []
      end.
Proof.
  pose proof (split_acc_not_nil sep b []) as Hb.
  destruct (split_acc sep [] b) as [|q rb] eqn:Eb; [congruence|]. clear Hb.
  induction a as [|c a IH]; intros cur.
  - simpl. rewrite split_acc_cur, Eb. reflexivity.
  - simpl. destruct (Ascii.eqb c sep).
    + rewrite (IH []).
      pose proof (split_acc_not_nil sep a []) as Hn.
      destruct (split_acc sep [] a) as [|x l]; [congruence|]. reflexivity.
    + apply IH.
Qed.

Lemma blank_pieces sep s :
  forall cur, blank cur -> blank s ->
  Forall blank (split_acc sep cur s).
Proof.
  induction s as [|c s IH]; intros cur Hc Hs; simpl.
  - constructor; [apply Forall_rev, Hc|constructor].
  - inversion Hs as [|? ? H1 H2]; subst.
    destruct (Ascii.eqb c sep).
    + constructor; [apply Forall_rev, Hc|]. apply IH; [constructor|exact H2].
    + apply IH; [constructor; assumption|exact H2].
Qed.

Lemma lines_of_pieces_blank l :
  Forall blank l ->
  map strip (filter (fun x => negb (is_empty (strip x))) l) = [].
Proof.
  induction 1 as [|x l Hx _ IH]; simpl; [reflexivity|].
  rewrite (strip_blank x Hx). exact IH.
Qed.

Lemma removelast_last (A : Type) (l : list A) (d : A) :
  l <> [] -> l = removelast l ++ [last l d].
Proof. intros H. apply app_removelast_last, H. Qed.

Lemma lines_of_app f (l1 l2 : list str) :
  map strip (filter f (l1 ++ l2)) =
    map strip (filter f l1) ++ map strip (filter f l2).
Proof. rewrite filter_app, map_app. reflexivity. Qed.

Lemma lines_of_lead u t : blank u -> lines_of (u ++ t) = lines_of t.
Proof.
  intros Hu. unfold lines_of, split. rewrite split_acc_app.
  pose proof (split_acc_not_nil LF t []) as Hn.
  destruct (split_acc LF [] t) as [|q rb]; [congruence|].
  pose proof (blank_pieces LF u [] (Forall_nil _) Hu) as Hb.
  pose proof (split_acc_not_nil LF u []) as Hnu.
  rewrite (removelast_last _ _ [] Hnu) in Hb.
  apply Forall_app in Hb. destruct Hb as [Hb1 Hb2].
  inversion Hb2 as [|? ? Hlast _]; subst.
  rewrite lines_of_app, lines_of_pieces_blank by exact Hb1.
  set (x := last (split_acc LF [] u) []) in *.
  simpl. rewrite (strip_blank_app x q Hlast).
  destruct (negb (is_empty (strip q))); [|reflexivity].
  simpl. rewrite (strip_blank_app x q Hlast). reflexivity.
Qed.

Lemma lines_of_trail t v : blank v -> lines_of (t ++ v) = lines_of t.
Proof.
  intros Hv. unfold lines_of, split. rewrite split_acc_app.
  pose proof (blank_pieces LF v [] (Forall_nil _) Hv) as Hb.
  pose proof (split_acc_not_nil LF v []) as Hnv.
  destruct (split_acc LF [] v) as [|q rb]; [congruence|].
  inversion Hb as [|? ? Hq Hrb]; subst.
  pose proof (split_acc_not_nil LF t []) as Hn.
  rewrite (removelast_last _ (split_acc LF [] t) [] Hn) at 3.
  rewrite !lines_of_app. f_equal.
  set (x := last (split_acc LF [] t) []).
  simpl. rewrite (strip_app_blank x q Hq).
  destruct (negb (is_empty (strip x))); simpl;
    rewrite ?(strip_app_blank x q Hq), (lines_of_pieces_blank rb Hrb);
    reflexivity.
Qed.

Lemma normalize_without_outer_strip_aux text : normalize text = lines_of text.
Proof.
  destruct (strip_between_blanks text) as (u & v & Hu & Hv & E).
  rewrite E at 2. rewrite lines_of_lead, lines_of_trail by assumption.
  reflexivity.
Qed.

(** X1. The strip of the whole text changes nothing: the lines of the
    parser are the pieces between line feeds that are not blank, each one
    stripped. *)
Theorem normalize_without_outer_strip :
  forall text, normalize text = lines_of text.
Proof.
  intros text. apply normalize_without_outer_strip_aux.
Qed.

Lemma normalized_lines_are_lines_aux text : Forall is_line (normalize text).
Proof.
  apply Forall_forall. intros l H. apply (normalize_lines text l H).
Qed.

(** X2. Every line the parser works on is not empty, has no white space
    at either end and holds no line feed. *)
Theorem normalized_lines_are_lines :
  forall text, Forall is_line (normalize text).
Proof.
  intros text. apply normalized_lines_are_lines_aux.
Qed.

Lemma parse_depends_on_lines text1 text2 :
  normalize text1 = normalize text2 ->
  parse_receipt_text text1 = parse_receipt_text text2.
Proof. intros H. unfold parse_receipt_text. rewrite H. reflexivity. Qed.

(** X3. Blank lines and white space around the lines do not count: the
    text made of the normalized lines, joined by line feeds, has the same
    lines and the same result as the text itself. *)
Theorem parse_of_normalized_text :
  forall text,
    normalize (join LF (normalize text)) = normalize text /\
    parse_receipt_text (join LF (normalize text)) = parse_receipt_text text.
Proof.
  intros text.
  assert (H : normalize (join LF (normalize text)) = normalize text)
    by apply normalize_join, normalized_lines_are_lines_aux.
  split; [exact H|]. apply parse_depends_on_lines, H.
Qed.

(** ** The loop over pairs: order and number of the items *)

Lemma subseq_refl_nil (A : Type) (v : list A) : subseq [] v.
Proof. induction v; constructor; assumption. Qed.

Lemma paired_loop_order rest :
  forall acc,
  exists ds,
    map description (paired_loop rest acc) = map description acc ++ ds /\
    subseq ds rest /\
    2 * length ds <= length rest.
Proof.
  induction rest as [|x|desc price_line rest IH1 IH2] using list_pair_ind;
    intros acc.
  - exists []. rewrite app_nil_r. repeat split; [constructor|simpl; lia].
  - exists []. rewrite app_nil_r. repeat split;
      [apply subseq_refl_nil|simpl; lia].
  - cbn [paired_loop].
    assert (Hskip : exists ds,
               map description (paired_loop (price_line :: rest) acc)
               = map description acc ++ ds /\
               subseq ds (desc :: price_line :: rest) /\
               2 * length ds <= length (desc :: price_line :: rest)).
    { destruct (IH1 acc) as (ds & E & Hs & Hl). exists ds.
      repeat split; [exact E|constructor; exact Hs|simpl in *; lia]. }
    destruct (float_of_str (clean_price price_line)) as [price|];
      [|exact Hskip].
    destruct (reserved desc); [exact Hskip|].
    destruct (IH2 (acc ++ [Item desc (py_round2 price)]))
      as (ds & E & Hs & Hl).
    exists (desc :: ds). repeat split.
    + rewrite E, map_app, <- app_assoc. reflexivity.
    + apply subseq_take, subseq_skip, Hs.
    + simpl in *. lia.
Qed.

(** X4. The loop over pairs emits its items from top to bottom: their
    descriptions are lines of the text, in the order of the text, none
    starts with a reserved keyword, and there are at most half as many
    items as lines. *)
Theorem paired_items_in_text_order :
  forall lines,
    subseq (map description (paired_items lines)) lines /\
    Forall (fun it => reserved (description it) = false)
           (paired_items lines) /\
    2 * length (paired_items lines) <= length lines.
Proof.
  intros lines. unfold paired_items.
  destruct (paired_loop_order lines []) as (ds & E & Hs & Hl).
  simpl in E. repeat split.
  - rewrite E. exact Hs.
  - eapply Forall_impl; [|apply paired_items_from_lines].
    intros it [_ H]. exact H.
  - rewrite <- (length_map description), E. exact Hl.
Qed.

(** ** The single-line patterns: one item a line at most *)




(** X6. Under either strategy the description of every item of the
    result is not empty. *)
Theorem every_description_nonempty :
  forall text, exists r,
    parse_receipt_text text = Some r /\
    Forall description_nonempty (items r).
Proof. exact descriptions_nonempty. Qed.

(** ** A description line followed by a price line *)

Lemma two_lines_normalize desc price_line :
  is_line desc -> is_line price_line ->
  normalize (desc ++ LF :: price_line) = [desc; price_line].
Proof.
  intros Hd Hp.
  change (desc ++ LF :: price_line) with (join LF [desc; price_line]).
  apply normalize_join.
  constructor; [exact Hd|constructor; [exact Hp|constructor]].
Qed.

(** X7. A line that starts with no reserved keyword, followed by a price
    line that is a numeral once the dollar signs, the letters S and the
    commas are removed, gives exactly one item: that description with the
    numeral as amount, rounded; the amount is not negative. *)
Theorem pair_with_decorated_price :
  forall desc price_line,
    is_line desc -> is_line price_line ->
    reserved desc = false ->
    numeral (clean_price price_line) ->
    exists x r,
      float_of_str (clean_price price_line) = Some x /\
      float_nonneg (py_round2 x) = true /\
      parse_receipt_text (desc ++ LF :: price_line) = Some r /\
      items r = [Item desc (py_round2 x)].
Proof.
  intros desc price_line Hd Hp Hr Hn.
  destruct (float_of_numeral _ Hn) as (x & Hx & Hs).
  destruct (parse_receipt_text_eq (desc ++ LF :: price_line))
    as (t & _ & _ & ->).
  exists x. eexists. repeat split.
  - exact Hx.
  - apply has_sign_nonneg, py_round2_sign, Hs.
  - rewrite (two_lines_normalize desc price_line Hd Hp).
    unfold paired_items. cbn [paired_loop]. rewrite Hx, Hr. reflexivity.
Qed.

Lemma pair_with_decorated_price_witness :
  exists x r,
    float_of_str (clean_price (lit "$1,234.50")) = Some x /\
    float_nonneg (py_round2 x) = true /\
    parse_receipt_text (lit "Juice" ++ LF :: lit "$1,234.50") = Some r /\
    items r = [Item (lit "Juice") (py_round2 x)].
Proof.
  apply (pair_with_decorated_price (lit "Juice") (lit "$1,234.50")).
  - split; [discriminate|split; [reflexivity|]].
    intros H. vm_compute in H. intuition discriminate.
  - split; [discriminate|split; [reflexivity|]].
    intros H. vm_compute in H. intuition discriminate.
  - reflexivity.
  - exists (lit "1234"), (lit "50"). repeat split.
    + discriminate.
    + repeat constructor.
    + repeat constructor.
    + right. reflexivity.
Defined.

(** ** The number on the line of the total *)

Lemma match_at_number_none prev c s :
  is_digit c = false -> match_at pat_number prev (c :: s) = None.
Proof. intros H. unfold match_at. simpl. rewrite H. reflexivity. Qed.

Lemma findall_number_skip pre :
  forall prev s,
    all_in (fun c => negb (is_digit c)) pre ->
    exists prev',
      findall_from pat_number prev (pre ++ s) 0 =
      findall_from pat_number prev' s 0.
Proof.
  induction pre as [|c pre IH]; intros prev s H.
  - exists prev. reflexivity.
  - inversion H as [|? ? Hc Hpre]; subst. apply negb_true_iff in Hc.
    destruct (IH (Some c) s Hpre) as [prev' E]. exists prev'.
    cbn [app findall_from]. rewrite match_at_number_none by exact Hc.
    exact E.
Qed.

Lemma findall_from_skipped r s :
  forall prev skip, length s <= skip -> findall_from r prev s skip = [].
Proof.
  induction s as [|c s IH]; intros prev skip H; [reflexivity|].
  destruct skip as [|k]; simpl in H; [lia|].
  simpl. apply IH. lia.
Qed.

Lemma star_greedy p ds rest :
  all_in p ds ->
  match rest with [] => True | c :: _ => p c = false end ->
  forall prev, exists prev' l, star p prev (ds ++ rest) = (prev', rest) :: l.
Proof.
  intros Hds Hrest. induction Hds as [|d ds Hd _ IH]; intros prev.
  - simpl. destruct rest as [|c rest].
    + exists prev, []. reflexivity.
    + simpl. rewrite Hrest. exists prev, []. reflexivity.
  - simpl. rewrite Hd. destruct (IH (Some d)) as (prev' & l & E).
    rewrite E. eexists. eexists. reflexivity.
Qed.

Lemma run_seq_head r1 r2 st st1 l st2 l2 :
  run r1 st = st1 :: l -> run r2 st1 = st2 :: l2 ->
  exists l', run (Seq r1 r2) st = st2 :: l'.
Proof.
  intros H1 H2. cbn [run]. rewrite H1. cbn [flat_map]. rewrite H2.
  eexists. reflexivity.
Qed.

Lemma run_plus_greedy p prev c ds rest :
  p c = true -> all_in p ds ->
  match rest with [] => True | d :: _ => p d = false end ->
  exists prev' l, run (Plus p) (prev, (c :: ds) ++ rest) = (prev', rest) :: l.
Proof.
  intros Hc Hds Hrest. cbn [run snd app]. rewrite Hc.
  apply star_greedy; assumption.
Qed.

Lemma run_fraction_greedy prev fp :
  all_in is_digit fp ->
  exists prev' l,
    run (Seq (Opt (Cls dot_or_comma)) (Star is_digit))
        (prev, "."%char :: fp) = (prev', []) :: l.
Proof.
  intros Hf.
  destruct (star_greedy is_digit fp [] Hf I (Some "."%char))
    as (prev2 & l2 & E2).
  rewrite app_nil_r in E2.
  destruct (run_seq_head (Opt (Cls dot_or_comma)) (Star is_digit)
              (prev, "."%char :: fp) (Some "."%char, fp)
              [(prev, "."%char :: fp)] (prev2, []) l2) as [l' E].
  - reflexivity.
  - exact E2.
  - exists prev2, l'. exact E.
Qed.

(** On a numeral that ends the text, the pattern of the total matches the
    whole numeral. *)
Lemma match_at_number_numeral prev n :
  numeral n -> match_at pat_number prev n = Some (length n).
Proof.
  intros (ip & fp & Hne & Hi & Hf & Hn).
  destruct ip as [|c ip]; [congruence|].
  inversion Hi as [|? ? Hc Hip]; subst.
  assert (Hhead : exists prev' l, run pat_number (prev, n) = (prev', []) :: l).
  { destruct Hn as [->| ->].
    - destruct (run_plus_greedy is_digit prev c ip [] Hc Hip I)
        as (p1 & l1 & E1).
      rewrite app_nil_r in E1.
      destruct (run_seq_head (Plus is_digit)
                  (Seq (Opt (Cls dot_or_comma)) (Star is_digit))
                  (prev, c :: ip) (p1, []) l1 (p1, []) []) as [l' E].
      + exact E1.
      + reflexivity.
      + exists p1, l'. exact E.
    - destruct (run_plus_greedy is_digit prev c ip ("."%char :: fp) Hc Hip
                  eq_refl) as (p1 & l1 & E1).
      destruct (run_fraction_greedy p1 fp Hf) as (p2 & l2 & E2).
      destruct (run_seq_head _ _ _ _ _ _ _ E1 E2) as [l' E].
      exists p2, l'. exact E. }
  destruct Hhead as (prev' & l & E). unfold match_at. rewrite E.
  f_equal. simpl. lia.
Qed.

Lemma findall_number_numeral prev n :
  numeral n -> findall_from pat_number prev n 0 = [n].
Proof.
  intros Hn. pose proof (match_at_number_numeral prev n Hn) as Hm.
  destruct n as [|c n].
  { destruct Hn as (ip & fp & Hne & _ & _ & [E|E]);
      destruct ip; try congruence; discriminate. }
  cbn [findall_from]. rewrite Hm.
  rewrite firstn_all. f_equal.
  apply findall_from_skipped. simpl. lia.
Qed.

Lemma numeral_clean n :
  numeral n -> remove_char "S" (remove_char "," n) = n.
Proof.
  intros (ip & fp & _ & Hi & Hf & [->| ->]).
  - rewrite remove_comma_digits, remove_S_digits by assumption. reflexivity.
  - rewrite !remove_char_app, (remove_comma_digits ip),
      (remove_S_digits ip) by assumption.
    f_equal. simpl.
    change (remove_char "," fp) with (remove_char "," fp).
    fold (remove_char "," fp). rewrite remove_comma_digits by assumption.
    fold (remove_char "S" fp). rewrite remove_S_digits by assumption.
    reflexivity.
Qed.

(** X8. When the first line that contains "total" and a digit is made of
    text without digits followed by a numeral, as in [Total: $12.34], the
    total is that numeral, converted and rounded. *)
Theorem total_reads_number_after_label :
  forall text before label n after,
    normalize text = before ++ (label ++ n) :: after ->
    Forall (fun l => contains (lower l) (lit "total") = false \/
                     findall pat_number l = []) before ->
    contains (lower (label ++ n)) (lit "total") = true ->
    all_in (fun c => negb (is_digit c)) label ->
    numeral n ->
    exists r x,
      parse_receipt_text text = Some r /\
      float_of_str n = Some x /\
      total r = py_round2 x.
Proof.
  intros text before label n after E Hb Ht Hl Hn.
  destruct (parse_receipt_text_eq text) as (x & Hx & _ & ->).
  assert (Hf : findall pat_number (label ++ n) = [n]).
  { unfold findall. destruct (findall_number_skip label None n Hl) as [p' ->].
    apply findall_number_numeral, Hn. }
  rewrite E in Hx.
  assert (Hk : total_scan (before ++ (label ++ n) :: after) =
               float_of_str (remove_char "S" (remove_char ","
                 (last_match (findall pat_number (label ++ n))))))
    by (apply total_scan_skips; [exact Hb|exact Ht|rewrite Hf; discriminate]).
  rewrite Hf in Hk. change (last_match [n]) with n in Hk.
  rewrite (numeral_clean n Hn) in Hk.
  eexists. exists x. repeat split.
  rewrite <- Hx. symmetry. exact Hk.
Qed.

Lemma total_reads_number_after_label_witness :
  exists r x,
    parse_receipt_text (lit "Coffee\n4.50\nSubtotal\nTotal: $12.34") = Some r /\
    float_of_str (lit "12.34") = Some x /\
    total r = py_round2 x.
Proof.
  apply (total_reads_number_after_label
           (lit "Coffee\n4.50\nSubtotal\nTotal: $12.34")
           [lit "Coffee"; lit "4.50"; lit "Subtotal"]
           (lit "Total: $") (lit "12.34") []).
  - reflexivity.
  - constructor; [left; reflexivity|].
    constructor; [left; reflexivity|].
    constructor; [right; reflexivity|constructor].
  - reflexivity.
  - repeat constructor.
  - exists (lit "12"), (lit "34"). repeat split.
    + discriminate.
    + repeat constructor.
    + repeat constructor.
    + right. reflexivity.
Defined.

(** ** The text of the recognizer *)

Lemma split_acc_chars sep s :
  forall cur c,
    In c cur \/ In c s ->
    c = sep \/ exists p, In p (split_acc sep cur s) /\ In c p.
Proof.
  induction s as [|d s IH]; intros cur c H; simpl.
  - destruct H as [H|[]]. right. exists (rev cur).
    split; [left; reflexivity|]. rewrite <- in_rev. exact H.
  - destruct (Ascii.eqb d sep) eqn:E.
    + apply Ascii.eqb_eq in E. subst d.
      destruct H as [H|[H|H]].
      * right. exists (rev cur). split; [left; reflexivity|].
        rewrite <- in_rev. exact H.
      * left. symmetry. exact H.
      * destruct (IH [] c (or_intror H)) as [Hc|(p & Hp & Hc)];
          [left; exact Hc|].
        right. exists p. split; [right; exact Hp|exact Hc].
    + apply IH. destruct H as [H|[H|H]].
      * left. right. exact H.
      * left. left. exact H.
      * right. exact H.
Qed.

Lemma filter_nil_all (A : Type) (f : A -> bool) (l : list A) :
  filter f l = [] -> Forall (fun x => f x = false) l.
Proof.
  induction l as [|x l IH]; simpl; [constructor|].
  destruct (f x) eqn:E; [discriminate|].
  intros H. constructor; [exact E|apply IH, H].
Qed.

(** The parser has no line exactly when the text is blank. *)
Lemma normalize_nil_iff text : normalize text = [] <-> strip text = [].
Proof.
  split.
  - intros H. apply strip_blank.
    rewrite normalize_without_outer_strip_aux in H. unfold lines_of in H.
    apply map_eq_nil, filter_nil_all in H. rewrite Forall_forall in H.
    apply Forall_forall. intros c Hc.
    destruct (split_acc_chars LF text [] c (or_intror Hc))
      as [->|(p & Hp & Hcp)]; [reflexivity|].
    specialize (H p Hp). apply negb_false_iff in H.
    assert (Hb : blank p).
    { apply strip_nil_blank. destruct (strip p); [reflexivity|discriminate]. }
    unfold blank, all_in in Hb. rewrite Forall_forall in Hb.
    apply Hb, Hcp.
  - intros H. unfold normalize. rewrite H. reflexivity.
Qed.

Lemma join_incl sep (l : list str) f : In f l -> incl f (join sep l).
Proof.
  induction l as [|x l IH]; [intros []|].
  intros [<-|H] c Hc.
  - destruct l; [exact Hc|]. apply in_or_app. left. exact Hc.
  - destruct l as [|y l]; [destruct H|].
    change (join sep (x :: y :: l)) with (x ++ sep :: join sep (y :: l)).
    apply in_or_app. right. right. apply (IH H c Hc).
Qed.

(** Fragments without line feed, joined by line feeds, give the lines
    that are the fragments not blank, each one stripped. *)
Lemma normalize_fragments res :
  Forall (fun f => ~ In LF f) res ->
  normalize (join LF res) =
    map strip (filter (fun x => negb (is_empty (strip x))) res).
Proof.
  intros H. rewrite normalize_without_outer_strip_aux. unfold lines_of.
  destruct res as [|f res]; [reflexivity|].
  rewrite split_join; [reflexivity|discriminate|exact H].
Qed.

(** X9. The recognizer wrapper returns a text or an error message, never
    both and never neither; a text it returns is not blank, so that the
    parser finds at least one line in it. *)
Theorem ocr_text_or_error :
  forall (image : Type) (lib : imaging image)
         (readtext : image -> outcome (list str)) (img : image),
    (exists text,
        perform_ocr_easyocr lib readtext img = (Some text, None) /\
        normalize text <> []) \/
    (exists err, perform_ocr_easyocr lib readtext img = (None, Some err)).
Proof.
  intros image lib readtext img. unfold perform_ocr_easyocr.
  destruct (bind (resize_for_ocr lib img) readtext) as [e|res].
  - right. eexists. reflexivity.
  - destruct (strip (join LF res)) as [|c t] eqn:E; simpl is_empty;
      cbv iota.
    + right. eexists. reflexivity.
    + left. eexists. split; [reflexivity|].
      intros H. apply normalize_nil_iff in H. congruence.
Qed.

Lemma join_blank (res : list str) :
  Forall blank res -> blank (join LF res).
Proof.
  induction 1 as [|f res Hf Hres IH]; [constructor|].
  destruct res as [|g res]; [exact Hf|].
  change (join LF (f :: g :: res)) with (f ++ LF :: join LF (g :: res)).
  apply Forall_app. split; [exact Hf|].
  constructor; [reflexivity|exact IH].
Qed.

Lemma join_blank_inv (res : list str) :
  blank (join LF res) -> Forall blank res.
Proof.
  intros H. apply Forall_forall. intros f Hf.
  apply Forall_forall. intros d Hd.
  unfold blank, all_in in H. rewrite Forall_forall in H.
  apply H. apply (join_incl LF res f Hf d Hd).
Qed.

(** X10. When the reader returns fragments without line feed: if all the
    fragments are blank the wrapper answers that no text was detected;
    if not, it returns the fragments joined by line feeds, and the lines
    the parser works on in that text are the fragments that are not
    blank, stripped, in reading order. *)
Theorem ocr_fragments_are_lines :
  forall (image : Type) (lib : imaging image)
         (readtext : image -> outcome (list str)) (img : image)
         (res : list str),
    bind (resize_for_ocr lib img) readtext = Returns res ->
    Forall (fun f => ~ In LF f) res ->
    (Forall blank res ->
     perform_ocr_easyocr lib readtext img = (None, Some no_text_detected)) /\
    (~ Forall blank res ->
     perform_ocr_easyocr lib readtext img = (Some (join LF res), None)) /\
    normalize (join LF res) =
      map strip (filter (fun x => negb (is_empty (strip x))) res).
Proof.
  intros image lib readtext img res E H. unfold perform_ocr_easyocr.
  rewrite E. repeat split.
  - intros Hb. rewrite (strip_blank _ (join_blank res Hb)). reflexivity.
  - intros Hnb.
    destruct (strip (join LF res)) as [|c t] eqn:Es; [|reflexivity].
    exfalso. apply Hnb, join_blank_inv, strip_nil_blank, Es.
  - apply normalize_fragments, H.
Qed.

Lemma ocr_fragments_are_lines_witness :
  (Forall blank [lit " Coffee "; lit "  "; lit "4.50"] ->
   perform_ocr_easyocr sizes_only
     (fun _ => Returns [lit " Coffee "; lit "  "; lit "4.50"])
     (640, 480)%Z = (None, Some no_text_detected)) /\
  (~ Forall blank [lit " Coffee "; lit "  "; lit "4.50"] ->
   perform_ocr_easyocr sizes_only
     (fun _ => Returns [lit " Coffee "; lit "  "; lit "4.50"])
     (640, 480)%Z
   = (Some (join LF [lit " Coffee "; lit "  "; lit "4.50"]), None)) /\
  normalize (join LF [lit " Coffee "; lit "  "; lit "4.50"]) =
    map strip (filter (fun x => negb (is_empty (strip x)))
                      [lit " Coffee "; lit "  "; lit "4.50"]).
Proof.
  apply (ocr_fragments_are_lines (Z * Z) sizes_only
           (fun _ => Returns [lit " Coffee "; lit "  "; lit "4.50"])
           (640, 480)%Z).
  - reflexivity.
  - repeat (constructor;
            [intros H; vm_compute in H; intuition discriminate|]).
    constructor.
Defined.

(** ** The size of the image given to the recognizer *)

Lemma int_of_float_nonneg q k :
  has_sign false q -> int_of_float q = Returns k -> (0 <= k)%Z.
Proof.
  destruct q as [s|s| |s m e]; unfold int_of_float; intros Hs Hk;
    try discriminate.
  - injection Hk as <-. lia.
  - change (s = false) in Hs. subst s.
    assert (H1 : (0 <= Zpos m * 2 ^ e)%Z).
    { apply Z.mul_nonneg_nonneg; [lia|]. apply Z.pow_nonneg. lia. }
    assert (H2 : (0 <= Zpos m / 2 ^ (- e))%Z).
    { apply Z_div_nonneg_nonneg; [lia|]. apply Z.pow_nonneg. lia. }
    destruct (0 <=? e)%Z; injection Hk as <-; assumption.
Qed.

Lemma int_true_div_nonneg n d q :
  (0 <= n)%Z -> (0 < d)%Z -> int_true_div n d = Returns q ->
  has_sign false q.
Proof.
  intros Hn Hd. unfold int_true_div.
  destruct d as [|d|d]; try lia. destruct n as [|n|n]; try lia.
  - intros [= <-]. reflexivity.
  - pose proof (float_of_ratio_sign false (Z.to_pos (Z.abs (Zpos n)))
                  (Z.to_pos (Z.abs (Zpos d)))) as Hs.
    change (xorb (Zpos n <? 0)%Z (Zpos d <? 0)%Z) with false.
    destruct (float_of_ratio false _ _); try discriminate;
      intros [= <-]; exact Hs.
Qed.

(** X11. With an imaging library whose resized image has the size asked
    for, the image [resize_for_ocr] returns is never wider than
    [MAX_WIDTH], its height is not negative when the height of the image
    is not, an image that is not too wide is returned as it is, and
    resizing the result again returns it unchanged. *)
Theorem resize_for_ocr_bounds :
  forall (image : Type) (lib : imaging image) (img img' : image),
    resize_gives_size lib ->
    resize_for_ocr lib img = Returns img' ->
    (fst (size lib img') <= MAX_WIDTH)%Z /\
    ((0 <= snd (size lib img))%Z -> (0 <= snd (size lib img'))%Z) /\
    ((fst (size lib img) <= MAX_WIDTH)%Z -> img' = img) /\
    resize_for_ocr lib img' = Returns img'.
Proof.
  intros image lib img img' Hlib. unfold resize_for_ocr at 1.
  destruct (size lib img) as [w h] eqn:Es. simpl fst. simpl snd.
  destruct (w >? MAX_WIDTH)%Z eqn:Ew.
  - destruct (int_true_div (h * MAX_WIDTH) w) as [e|q] eqn:Eq;
      [discriminate|].
    simpl bind. destruct (int_of_float q) as [e|h'] eqn:Eh; [discriminate|].
    simpl bind. intros Hr. apply Hlib in Hr.
    assert (Hw : (MAX_WIDTH < w)%Z) by (apply Z.gtb_lt; exact Ew).
    repeat split.
    + rewrite Hr. simpl. lia.
    + intros Hh. rewrite Hr. simpl.
      apply (int_of_float_nonneg q h'); [|exact Eh].
      apply (int_true_div_nonneg (h * MAX_WIDTH) w); [|unfold MAX_WIDTH in *; lia|exact Eq].
      unfold MAX_WIDTH. lia.
    + lia.
    + unfold resize_for_ocr. rewrite Hr. reflexivity.
  - intros [= <-].
    assert (Hw : (w <= MAX_WIDTH)%Z).
    { destruct (Z.gtb_spec w MAX_WIDTH); [discriminate|assumption]. }
    repeat split.
    + rewrite Es. exact Hw.
    + rewrite Es. auto.
    + unfold resize_for_ocr. rewrite Es, Ew. reflexivity.
Qed.

Lemma resize_for_ocr_bounds_witness :
  (fst (size sizes_only (1000, 750)%Z) <= MAX_WIDTH)%Z /\
  ((0 <= snd (size sizes_only (4032, 3024)%Z))%Z ->
   (0 <= snd (size sizes_only (1000, 750)%Z))%Z) /\
  ((fst (size sizes_only (4032, 3024)%Z) <= MAX_WIDTH)%Z ->
   (1000, 750)%Z = (4032, 3024)%Z) /\
  resize_for_ocr sizes_only (1000, 750)%Z = Returns (1000, 750)%Z.
Proof.
  apply (resize_for_ocr_bounds (Z * Z) sizes_only (4032, 3024)%Z
           (1000, 750)%Z).
  - intros img sz img' H. injection H as <-. reflexivity.
  - vm_compute. reflexivity.
Defined.

(** ** Adding and deleting expenses *)

Lemma float_eq_sym x y : float_eq x y = float_eq y x.
Proof.
  unfold float_eq, SFeqb, SFcompare.
  destruct x as [sx|sx| |sx mx ex], y as [sy|sy| |sy my ey];
    try reflexivity;
    try (destruct sx; reflexivity);
    try (destruct sy; reflexivity);
    try (destruct sx, sy; reflexivity).
  destruct sx, sy; try reflexivity;
    rewrite (Z.compare_antisym ex ey);
    destruct (ex ?= ey)%Z; simpl; try reflexivity;
    change (PosDef.Pos.compare_cont Eq mx my) with (Pos.compare mx my);
    change (PosDef.Pos.compare_cont Eq my mx) with (Pos.compare my mx);
    rewrite (Pos.compare_antisym my mx);
    destruct (Pos.compare my mx); reflexivity.
Qed.

Lemma filter_keeps_all (A : Type) (f : A -> bool) (l : list A) :
  Forall (fun x => f x = true) l -> filter f l = l.
Proof.
  induction 1 as [|x l Hx _ IH]; simpl; [reflexivity|].
  rewrite Hx, IH. reflexivity.
Qed.

Lemma distinct_ids_split l1 e l2 :
  distinct_ids (l1 ++ e :: l2) ->
  Forall (fun x => negb (float_eq (id x) (id e)) = true) l1 /\
  Forall (fun x => negb (float_eq (id x) (id e)) = true) l2.
Proof.
  unfold distinct_ids. induction l1 as [|a l1 IH]; simpl; intros H.
  - split; [constructor|]. inversion H as [|? ? Hall _]; subst.
    eapply Forall_impl; [|exact Hall]. intros x Hx. simpl in Hx.
    rewrite float_eq_sym, Hx. reflexivity.
  - inversion H as [|? ? Hall Hrest]; subst.
    destruct (IH Hrest) as [H1 H2]. split; [|exact H2].
    constructor; [|exact H1].
    rewrite Forall_app in Hall. destruct Hall as [_ Hall].
    inversion Hall as [|? ? Hae _]; subst. rewrite Hae. reflexivity.
Qed.

(** X12. Adding an expense whose time stamp is a number that no listed
    expense has, then deleting that time stamp, gives back the list of
    expenses; the document written to the file is that list. *)
Theorem delete_undoes_add :
  forall (day : Type) (strftime : day -> str) (now : spec_float)
         (description : str) (amount : spec_float) (cat : str)
         (d : day) (src : str) (s : session),
    float_eq now now = true ->
    Forall (fun e => float_eq (id e) now = false) (expenses s) ->
    expenses (delete_expense now
                (add_expense strftime now description amount cat d src s))
      = expenses s /\
    db_file (delete_expense now
               (add_expense strftime now description amount cat d src s))
      = Some (expenses s).
Proof.
  intros day strftime now description amount cat d src s Hnow Hfresh.
  assert (E : filter (fun e => negb (float_eq (id e) now))
                (expenses s ++ [Expense now description amount cat
                                        (strftime d) src])
              = expenses s).
  { rewrite filter_app. simpl. rewrite Hnow. simpl. rewrite app_nil_r.
    apply filter_keeps_all. eapply Forall_impl; [|exact Hfresh].
    intros e He. simpl in He. rewrite He. reflexivity. }
  unfold delete_expense, add_expense, save_expenses. simpl.
  rewrite E. split; reflexivity.
Qed.

Lemma delete_undoes_add_witness :
  expenses (delete_expense (dec 1730000000 0)
              (add_expense (fun _ : unit => lit "2024-10-27")
                 (dec 1730000000 0) (lit "Coffee") (dec 450 (-2))
                 (lit "food") tt (lit "manual")
                 (Session [Expense (dec 1729990000 0) (lit "Bus")
                                   (dec 250 (-2)) (lit "transport")
                                   (lit "2024-10-26") (lit "manual");
                           Expense (dec 1729995000 0) (lit "Bagel")
                                   (dec 325 (-2)) (lit "food")
                                   (lit "2024-10-27") (lit "ocr")]
                          None)))
    = [Expense (dec 1729990000 0) (lit "Bus") (dec 250 (-2))
               (lit "transport") (lit "2024-10-26") (lit "manual");
       Expense (dec 1729995000 0) (lit "Bagel") (dec 325 (-2))
               (lit "food") (lit "2024-10-27") (lit "ocr")] /\
  db_file (delete_expense (dec 1730000000 0)
             (add_expense (fun _ : unit => lit "2024-10-27")
                (dec 1730000000 0) (lit "Coffee") (dec 450 (-2))
                (lit "food") tt (lit "manual")
                (Session [Expense (dec 1729990000 0) (lit "Bus")
                                  (dec 250 (-2)) (lit "transport")
                                  (lit "2024-10-26") (lit "manual");
                          Expense (dec 1729995000 0) (lit "Bagel")
                                  (dec 325 (-2)) (lit "food")
                                  (lit "2024-10-27") (lit "ocr")]
                         None)))
    = Some [Expense (dec 1729990000 0) (lit "Bus") (dec 250 (-2))
                    (lit "transport") (lit "2024-10-26") (lit "manual");
            Expense (dec 1729995000 0) (lit "Bagel") (dec 325 (-2))
                    (lit "food") (lit "2024-10-27") (lit "ocr")].
Proof.
  apply (delete_undoes_add unit (fun _ => lit "2024-10-27")
           (dec 1730000000 0) (lit "Coffee") (dec 450 (-2)) (lit "food") tt
           (lit "manual")
           (Session [Expense (dec 1729990000 0) (lit "Bus")
                             (dec 250 (-2)) (lit "transport")
                             (lit "2024-10-26") (lit "manual");
                     Expense (dec 1729995000 0) (lit "Bagel")
                             (dec 325 (-2)) (lit "food")
                             (lit "2024-10-27") (lit "ocr")]
                    None)).
  - reflexivity.
  - constructor; [reflexivity|]. constructor; [reflexivity|]. constructor.
Defined.

(** X13. In a list where no two expenses have equal identifiers,
    deleting the identifier of a listed expense removes that expense and
    no other, and keeps the order of the others; when that identifier is
    a nan, which is equal to nothing, the list is left as it is. *)
Theorem delete_removes_one :
  forall (s : session) (l1 l2 : list expense) (e : expense),
    expenses s = l1 ++ e :: l2 ->
    distinct_ids (expenses s) ->
    expenses (delete_expense (id e) s) =
      if float_eq (id e) (id e) then l1 ++ l2 else l1 ++ e :: l2.
Proof.
  intros s l1 l2 e E Hd. rewrite E in Hd.
  destruct (distinct_ids_split l1 e l2 Hd) as [H1 H2].
  unfold delete_expense, save_expenses. simpl. rewrite E, filter_app.
  simpl.
  rewrite (filter_keeps_all _ _ l1 H1), (filter_keeps_all _ _ l2 H2).
  destruct (float_eq (id e) (id e)); reflexivity.
Qed.

Lemma delete_removes_one_witness :
  expenses
    (delete_expense (dec 2 0)
       (Session [Expense (dec 1 0) (lit "a") (dec 5 0) (lit "food")
                         (lit "2024-10-27") (lit "manual");
                 Expense (dec 2 0) (lit "b") (dec 6 0) (lit "other")
                         (lit "2024-10-27") (lit "ocr");
                 Expense (dec 3 0) (lit "c") (dec 7 0) (lit "food")
                         (lit "2024-10-28") (lit "manual")] None))
  = [Expense (dec 1 0) (lit "a") (dec 5 0) (lit "food")
             (lit "2024-10-27") (lit "manual")]
    ++ [Expense (dec 3 0) (lit "c") (dec 7 0) (lit "food")
                (lit "2024-10-28") (lit "manual")].
Proof.
  apply (delete_removes_one
           (Session [Expense (dec 1 0) (lit "a") (dec 5 0) (lit "food")
                             (lit "2024-10-27") (lit "manual");
                     Expense (dec 2 0) (lit "b") (dec 6 0) (lit "other")
                             (lit "2024-10-27") (lit "ocr");
                     Expense (dec 3 0) (lit "c") (dec 7 0) (lit "food")
                             (lit "2024-10-28") (lit "manual")] None)
           [Expense (dec 1 0) (lit "a") (dec 5 0) (lit "food")
                    (lit "2024-10-27") (lit "manual")]
           [Expense (dec 3 0) (lit "c") (dec 7 0) (lit "food")
                    (lit "2024-10-28") (lit "manual")]
           (Expense (dec 2 0) (lit "b") (dec 6 0) (lit "other")
                    (lit "2024-10-27") (lit "ocr"))).
  - reflexivity.
  - repeat constructor.
Defined.
